(** * UFS image and header layers

    A shallow embedding of [src/ufs_image.c] and [src/ufs_header.c]
    (with the constants of [include/ufs_defs.h] and the structures of
    [ufs_header.h]) and the properties of the image and header layers.

    The C code talks to the operating system (access, open, fstat,
    ftruncate, mmap, msync, munmap) and writes through a shared mapping of
    the backing file.  The embedding threads an explicit [World] through a
    small fault/state monad:
    - the file system is a finite map from paths to byte sequences;
    - a shared mapping is a record (path, length) stored under its address,
      and every load or store through an image pointer reads or writes the
      bytes of the backing file, so two mappings of one file alias;
    - a load or store through a null pointer, a dead mapping or outside the
      mapped extent is a [Fault] (undefined behaviour in C);
    - the outcome of each system call that may fail for reasons outside the
      program is an argument of the operation ([Sys]);
    - system calls are recorded in a trace. *)

From Stdlib Require Import ZArith List Lia String.
From coqutil Require Import Byte Word.LittleEndianList.
From stdpp Require Import gmap strings list fin_maps.
Local Open Scope Z_scope.

(** ** include/ufs_defs.h *)

Definition UFS_INDEX_VERSION : Z := 1.
Definition UFS_MAGIC_NUMBER : Z := 0x00736675.

Definition UFS_NO_ERROR : Z := 0.
Definition UFS_IMAGE_DOES_NOT_EXIST : Z := -1.
Definition UFS_IMAGE_IS_CORRUPTED : Z := -2.
Definition UFS_VERSION_MISMATCH : Z := -3.
Definition UFS_BAD_CALL : Z := -4.
Definition UFS_CANT_CREATE_FILE : Z := -11.
Definition UFS_UNKNOWN_ERROR : Z := -12.
Definition UFS_IMAGE_TOO_SMALL : Z := -12.
Definition UFS_IMAGE_COULD_NOT_SYNC : Z := -13.

(** [enum ufsTyepesEnum]: the index of each table in [sizes] and [offsets]. *)
Definition UFS_TYPES_FILE : Z := 0.
Definition UFS_TYPES_AREA : Z := 1.
Definition UFS_TYPES_NODE : Z := 2.
Definition UFS_TYPES_STRING : Z := 3.
Definition UFS_TYPES_COUNT : Z := 4.

(** ** Machine integers and the data layout

    [uint64_t] and [uint32_t] values are integers reduced modulo [2^64] and
    [2^32].  Sizes, alignments and field offsets are those of the LP64 data
    model (x86-64 and AArch64 Linux), the platform the Makefile builds for. *)

Definition wrap64 (z : Z) : Z := z mod 2 ^ 64.
Definition wrap32 (z : Z) : Z := z mod 2 ^ 32.

Module Abi.
Definition sizeof_uint64 : Z := 8.
Definition sizeof_char : Z := 1.
Definition alignof_char : Z := 1.
(** [struct ufsFileStruct { uint8_t; uint64_t }] *)
Definition sizeof_ufsFileStruct : Z := 16.
Definition alignof_ufsFileStruct : Z := 8.
(** [struct ufsAreaStruct { uint8_t; uint64_t }] *)
Definition sizeof_ufsAreaStruct : Z := 16.
Definition alignof_ufsAreaStruct : Z := 8.
(** [struct ufsNodeStruct { uint8_t; int64_t left, right, key[2]; uint8_t }] *)
Definition sizeof_ufsNodeStruct : Z := 48.
Definition alignof_ufsNodeStruct : Z := 8.
(** [struct ufsHeaderStruct { uint32_t magicNumber, version;
                              uint64_t sizes[4], offsets[4] }] *)
Definition sizeof_ufsHeaderStruct : Z := 72.
Definition alignof_ufsHeaderStruct : Z := 8.
Definition offsetof_magicNumber : Z := 0.
Definition offsetof_version : Z := 4.
Definition offsetof_sizes (t : Z) : Z := 8 + 8 * t.
Definition offsetof_offsets (t : Z) : Z := 40 + 8 * t.
End Abi.
Import Abi.

(** [struct ufsHeaderSizeRequestStruct] *)
Record ufsHeaderSizeRequestStruct := {
  numFiles : Z;
  numAreas : Z;
  numNodes : Z;
  numStrBytes : Z
}.

Definition ufsDefaultSizeRequest : ufsHeaderSizeRequestStruct :=
  {| numFiles := 256; numAreas := 256; numNodes := 512; numStrBytes := 1024 |}.

(** The fields of a size request are [uint64_t] values. *)
Definition request_in_range (r : ufsHeaderSizeRequestStruct) : Prop :=
  0 <= numFiles r < 2 ^ 64 /\ 0 <= numAreas r < 2 ^ 64 /\
  0 <= numNodes r < 2 ^ 64 /\ 0 <= numStrBytes r < 2 ^ 64.

(** ** The world *)

(** A live shared mapping: the file it maps and the mapped length. *)
Record Mapping := { m_path : string; m_len : Z }.

Definition addr := positive.

(** [ufsImagePtr] is [void *]: [None] is the null pointer, [Some a] the
    start of the mapping at address [a]. *)
Definition ufsImagePtr := option addr.
Definition NULL : ufsImagePtr := None.

(** A pointer into an image: the image it was derived from and a byte
    offset from its start. *)
Record Ptr := { p_base : ufsImagePtr; p_off : Z }.

Inductive Event :=
| EvAccess (p : string)
| EvOpen (p : string) (creat : bool)
| EvFstat (p : string)
| EvFtruncate (p : string) (size : Z)
| EvMmap (p : string) (len : Z)
| EvClose (p : string)
| EvMsync (a : addr) (size : Z)
| EvMunmap (a : addr) (size : Z)
| EvPerror (s : string).

Record World := {
  files : gmap string (list byte);   (* path -> contents of the file *)
  maps : gmap addr Mapping;          (* live mappings *)
  ufsErrno : Z;                      (* the global status word *)
  sc_pagesize : Z;                   (* value of sysconf(_SC_PAGESIZE) *)
  trace : list Event                 (* system calls made so far *)
}.

(** The value of [errno] after a failed [open]. *)
Inductive open_errno := EACCES | EOTHER.

(** Outcomes of the system calls that can fail for reasons the program does
    not control.  [r_open = None] means [open] succeeds. *)
Record Sys := {
  r_open : option open_errno;
  r_fstat : bool;
  r_ftruncate : bool;
  r_mmap : bool;
  r_msync : bool
}.

Definition sys_ok : Sys :=
  {| r_open := None; r_fstat := true; r_ftruncate := true;
     r_mmap := true; r_msync := true |}.

(** ** The monad *)

Inductive Outcome (A : Type) :=
| Ret (a : A) (w : World)
| Fault.
Arguments Ret {A} a w.
Arguments Fault {A}.

Definition M (A : Type) : Type := World -> Outcome A.

Definition ret {A} (a : A) : M A := fun w => Ret a w.

Definition bind {A B} (c : M A) (k : A -> M B) : M B :=
  fun w => match c w with
           | Ret a w' => k a w'
           | Fault => Fault
           end.

Notation "'do' x <- c ; k" := (bind c (fun x => k))
  (at level 10, x name, c at level 100, k at level 200).
Notation "c ;; k" := (bind c (fun _ => k))
  (at level 100, k at level 200, right associativity).

Definition set_files (f : gmap string (list byte)) (w : World) : World :=
  {| files := f; maps := maps w; ufsErrno := ufsErrno w;
     sc_pagesize := sc_pagesize w; trace := trace w |}.
Definition set_maps (m : gmap addr Mapping) (w : World) : World :=
  {| files := files w; maps := m; ufsErrno := ufsErrno w;
     sc_pagesize := sc_pagesize w; trace := trace w |}.
Definition set_ufsErrno (e : Z) (w : World) : World :=
  {| files := files w; maps := maps w; ufsErrno := e;
     sc_pagesize := sc_pagesize w; trace := trace w |}.
Definition log (e : Event) (w : World) : World :=
  {| files := files w; maps := maps w; ufsErrno := ufsErrno w;
     sc_pagesize := sc_pagesize w; trace := trace w ++ [e] |}.

(** [ufsErrno = e;] *)
Definition assign_ufsErrno (e : Z) : M unit :=
  fun w => Ret tt (set_ufsErrno e w).

(** ** System calls *)

(** [access(path, F_OK) == 0]: does a file exist at [path]? *)
Definition sys_access (p : string) : M bool :=
  fun w => Ret (bool_decide (is_Some (files w !! p))) (log (EvAccess p) w).

(** [open(path, flags)]: on success the descriptor is identified with the
    path it refers to; with [O_CREAT] an absent file is created empty. *)
Definition sys_open (p : string) (creat : bool) (s : Sys)
  : M (string + open_errno) :=
  fun w =>
    let w := log (EvOpen p creat) w in
    match r_open s with
    | Some e => Ret (inr e) w
    | None =>
        match files w !! p with
        | Some _ => Ret (inl p) w
        | None =>
            if creat then Ret (inl p) (set_files (<[p := []]> (files w)) w)
            else Ret (inr EOTHER) w
        end
    end.

(** [fstat(fd, &sb)]: [Some st_size] on success.  [st_size] is a
    non-negative [off_t], so its conversion to [uint64_t] where the code
    compares, maps or stores it is the identity. *)
Definition sys_fstat (fd : string) (s : Sys) : M (option Z) :=
  fun w =>
    let w := log (EvFstat fd) w in
    match files w !! fd with
    | Some bs => if r_fstat s then Ret (Some (Z.of_nat (length bs))) w
                 else Ret None w
    | None => Ret None w
    end.

(** [ftruncate(fd, size) == 0]: the file is cut or extended with zero bytes
    to exactly [size] bytes. *)
Definition sys_ftruncate (fd : string) (size : Z) (s : Sys) : M bool :=
  fun w =>
    let w := log (EvFtruncate fd size) w in
    match files w !! fd with
    | Some bs =>
        if r_ftruncate s
        then Ret true
               (set_files (<[fd := resize (Z.to_nat size) Byte.x00 bs]> (files w)) w)
        else Ret false w
    | None => Ret false w
    end.

(** [mmap(NULL, len, PROT_READ | PROT_WRITE, MAP_SHARED, fd, 0)]: [None] is
    [MAP_FAILED]; on success the kernel picks an address that is not in use. *)
Definition sys_mmap (fd : string) (len : Z) (s : Sys) : M (option addr) :=
  fun w =>
    let w := log (EvMmap fd len) w in
    if r_mmap s
    then let a := fresh (dom (maps w)) in
         Ret (Some a) (set_maps (<[a := {| m_path := fd; m_len := len |}]> (maps w)) w)
    else Ret None w.

Definition sys_close (fd : string) : M unit :=
  fun w => Ret tt (log (EvClose fd) w).

Definition perror (s : string) : M unit :=
  fun w => Ret tt (log (EvPerror s) w).

(** [msync(image, size, MS_SYNC) < 0].  Memory and file share their bytes
    here, so a successful flush changes nothing. *)
Definition sys_msync (image : ufsImagePtr) (size : Z) (s : Sys) : M bool :=
  fun w =>
    match image with
    | Some a => Ret (negb (r_msync s)) (log (EvMsync a size) w)
    | None => Ret true w
    end.

(** [munmap(image, size)]: a region is unmapped as a whole. *)
Definition sys_munmap (image : ufsImagePtr) (size : Z) : M unit :=
  fun w =>
    match image with
    | Some a =>
        let w := log (EvMunmap a size) w in
        if 0 <? size then Ret tt (set_maps (delete a (maps w)) w) else Ret tt w
    | None => Ret tt w
    end.

(** [sysconf(_SC_PAGESIZE)] *)
Definition sysconf_SC_PAGESIZE : M Z := fun w => Ret (sc_pagesize w) w.

(** ** Loads and stores through a pointer *)

Definition splice (off : nat) (new old : list byte) : list byte :=
  take off old ++ new ++ drop (off + length new) old.

Definition in_extent (off : Z) (n : nat) (len : Z) (bs : list byte) : bool :=
  (0 <=? off) && (off + Z.of_nat n <=? len) &&
  (off + Z.of_nat n <=? Z.of_nat (length bs)).

Definition mem_read (p : Ptr) (n : nat) : M (list byte) :=
  fun w =>
    match p_base p with
    | None => Fault
    | Some a =>
        match maps w !! a with
        | None => Fault
        | Some mp =>
            match files w !! m_path mp with
            | None => Fault
            | Some bs =>
                if in_extent (p_off p) n (m_len mp) bs
                then Ret (take n (drop (Z.to_nat (p_off p)) bs)) w
                else Fault
            end
        end
    end.

Definition mem_write (p : Ptr) (new : list byte) : M unit :=
  fun w =>
    match p_base p with
    | None => Fault
    | Some a =>
        match maps w !! a with
        | None => Fault
        | Some mp =>
            match files w !! m_path mp with
            | None => Fault
            | Some bs =>
                if in_extent (p_off p) (length new) (m_len mp) bs
                then Ret tt
                       (set_files
                          (<[m_path mp := splice (Z.to_nat (p_off p)) new bs]>
                             (files w)) w)
                else Fault
            end
        end
    end.

(** Little-endian scalar accesses. *)
Definition load (n : nat) (p : Ptr) : M Z :=
  do bs <- mem_read p n ; ret (le_combine bs).
Definition store (n : nat) (p : Ptr) (v : Z) : M unit :=
  mem_write p (le_split n v).

Definition load64 := load 8.
Definition load32 := load 4.
Definition store64 := store 8.
Definition store32 := store 4.

(** [(uint8_t * )p + d] *)
Definition ptr_add (p : Ptr) (d : Z) : Ptr :=
  {| p_base := p_base p; p_off := p_off p + d |}.
Definition image_ptr (img : ufsImagePtr) : Ptr := {| p_base := img; p_off := 0 |}.

(** ** src/ufs_header.c: sizes *)

(** [(((val) + ((align) - 1)) & ~((align) - 1))] on [uint64_t]. *)
Definition roundToBoundary (val align : Z) : Z :=
  Z.land (wrap64 (val + wrap64 (align - 1)))
         (wrap64 (Z.lnot (wrap64 (align - 1)))).

(** [resolveSize]; its first argument is the value the function obtains
    from [sysconf(_SC_PAGESIZE)], converted to [uint64_t]. *)
Definition resolveSize (pageSize : Z) (sizes : ufsHeaderSizeRequestStruct) : Z :=
  let size := sizeof_uint64 in
  let size := roundToBoundary size alignof_ufsHeaderStruct in
  let size := wrap64 (size + sizeof_ufsHeaderStruct) in
  let size := roundToBoundary size alignof_ufsFileStruct in
  let size := wrap64 (size + wrap64 (sizeof_ufsFileStruct * numFiles sizes)) in
  let size := roundToBoundary size alignof_ufsAreaStruct in
  let size := wrap64 (size + wrap64 (sizeof_ufsAreaStruct * numAreas sizes)) in
  let size := roundToBoundary size alignof_ufsNodeStruct in
  let size := wrap64 (size + wrap64 (sizeof_ufsNodeStruct * numNodes sizes)) in
  let size := roundToBoundary size alignof_char in
  let size := wrap64 (size + wrap64 (sizeof_char * numStrBytes sizes)) in
  let size := roundToBoundary size pageSize in
  size.

(** The offsets [mountHeader] records in [offsets[]], in table order. *)
Definition table_offsets (sizes : ufsHeaderSizeRequestStruct) : Z * Z * Z * Z :=
  let offset := sizeof_uint64 in
  let offset := roundToBoundary offset alignof_ufsHeaderStruct in
  let offset := wrap64 (offset + sizeof_ufsHeaderStruct) in
  let offset := roundToBoundary offset alignof_ufsFileStruct in
  let o_file := offset in
  let offset := wrap64 (offset + wrap64 (sizeof_ufsFileStruct * numFiles sizes)) in
  let offset := roundToBoundary offset alignof_ufsAreaStruct in
  let o_area := offset in
  let offset := wrap64 (offset + wrap64 (sizeof_ufsAreaStruct * numAreas sizes)) in
  let offset := roundToBoundary offset alignof_ufsNodeStruct in
  let o_node := offset in
  let offset := wrap64 (offset + wrap64 (sizeof_ufsNodeStruct * numNodes sizes)) in
  let offset := roundToBoundary offset alignof_char in
  let o_string := offset in
  (o_file, o_area, o_node, o_string).

(** ** src/ufs_image.c *)

Definition ufsImageOpen (filePath : option string) (s : Sys) : M ufsImagePtr :=
  match filePath with
  | None => assign_ufsErrno UFS_BAD_CALL ;; ret NULL
  | Some path =>
      do found <- sys_access path ;
      if negb found then
        assign_ufsErrno UFS_IMAGE_DOES_NOT_EXIST ;; ret NULL
      else
        do fd <- sys_open path false s ;
        match fd with
        | inr _ =>
            assign_ufsErrno UFS_UNKNOWN_ERROR ;; perror "open" ;; ret NULL
        | inl fd =>
            do sb <- sys_fstat fd s ;
            match sb with
            | None =>
                assign_ufsErrno UFS_UNKNOWN_ERROR ;; perror "fstat" ;;
                sys_close fd ;; ret NULL
            | Some st_size =>
                if st_size <? sizeof_uint64 then
                  assign_ufsErrno UFS_IMAGE_TOO_SMALL ;; sys_close fd ;; ret NULL
                else
                  do m <- sys_mmap fd st_size s ;
                  match m with
                  | None =>
                      assign_ufsErrno UFS_UNKNOWN_ERROR ;; perror "mmap" ;;
                      sys_close fd ;; ret NULL
                  | Some _ =>
                      let size := image_ptr m in
                      store64 size st_size ;;
                      sys_close fd ;;
                      assign_ufsErrno UFS_NO_ERROR ;;
                      ret m
                  end
            end
        end
  end.

Definition ufsImageCreate (filePath : option string) (size : Z) (s : Sys)
  : M ufsImagePtr :=
  match filePath with
  | None => assign_ufsErrno UFS_BAD_CALL ;; ret NULL
  | Some path =>
      if size <? sizeof_uint64 then assign_ufsErrno UFS_BAD_CALL ;; ret NULL
      else
        do fd <- sys_open path true s ;
        match fd with
        | inr e =>
            (match e with
             | EACCES => assign_ufsErrno UFS_CANT_CREATE_FILE
             | EOTHER => assign_ufsErrno UFS_BAD_CALL
             end) ;;
            perror "open" ;; ret NULL
        | inl fd =>
            do truncated <- sys_ftruncate fd size s ;
            if negb truncated then
              perror "ftruncate" ;; sys_close fd ;; ret NULL
            else
              do m <- sys_mmap fd size s ;
              match m with
              | None =>
                  assign_ufsErrno UFS_UNKNOWN_ERROR ;; perror "mmap" ;;
                  sys_close fd ;; ret NULL
              | Some _ =>
                  sys_close fd ;;
                  let sizePtr := image_ptr m in
                  store64 sizePtr size ;;
                  assign_ufsErrno UFS_NO_ERROR ;;
                  ret m
              end
        end
  end.

Definition ufsImageSync (image : ufsImagePtr) (s : Sys) : M bool :=
  do size <- load64 (image_ptr image) ;
  do failed <- sys_msync image size s ;
  if failed then
    perror "msync" ;; assign_ufsErrno UFS_IMAGE_COULD_NOT_SYNC ;; ret false
  else ret true.

Definition ufsImageFree (image : ufsImagePtr) : M unit :=
  do size <- load64 (image_ptr image) ;
  sys_munmap image size.

(** ** src/ufs_header.c *)

Definition ufsHeaderGet (img : ufsImagePtr) : Ptr :=
  ptr_add (image_ptr img) (roundToBoundary sizeof_uint64 alignof_ufsHeaderStruct).

(** Field designators of [struct ufsHeaderStruct]. *)
Definition magicNumber (h : Ptr) : Ptr := ptr_add h offsetof_magicNumber.
Definition version (h : Ptr) : Ptr := ptr_add h offsetof_version.
Definition sizes (h : Ptr) (t : Z) : Ptr := ptr_add h (offsetof_sizes t).
Definition offsets (h : Ptr) (t : Z) : Ptr := ptr_add h (offsetof_offsets t).

Definition ufsHeaderValidate (img : ufsImagePtr) : M ufsImagePtr :=
  let header := ufsHeaderGet img in
  do magic <- load32 (magicNumber header) ;
  if negb (magic =? UFS_MAGIC_NUMBER) then
    assign_ufsErrno UFS_IMAGE_IS_CORRUPTED ;; ret NULL
  else
    do vers <- load32 (version header) ;
    if negb (vers =? UFS_INDEX_VERSION) then
      assign_ufsErrno UFS_VERSION_MISMATCH ;; ret NULL
    else ret img.

Definition mountHeader (img : ufsImagePtr) (req : ufsHeaderSizeRequestStruct)
  : M ufsImagePtr :=
  let header := ufsHeaderGet img in
  store32 (magicNumber header) UFS_MAGIC_NUMBER ;;
  store32 (version header) UFS_INDEX_VERSION ;;
  store64 (sizes header UFS_TYPES_FILE) (numFiles req) ;;
  store64 (sizes header UFS_TYPES_AREA) (numAreas req) ;;
  store64 (sizes header UFS_TYPES_NODE) (numNodes req) ;;
  store64 (sizes header UFS_TYPES_STRING) (numStrBytes req) ;;
  let offset := sizeof_uint64 in
  let offset := roundToBoundary offset alignof_ufsHeaderStruct in
  let offset := wrap64 (offset + sizeof_ufsHeaderStruct) in
  let offset := roundToBoundary offset alignof_ufsFileStruct in
  store64 (offsets header UFS_TYPES_FILE) offset ;;
  let offset := wrap64 (offset + wrap64 (sizeof_ufsFileStruct * numFiles req)) in
  let offset := roundToBoundary offset alignof_ufsAreaStruct in
  store64 (offsets header UFS_TYPES_AREA) offset ;;
  let offset := wrap64 (offset + wrap64 (sizeof_ufsAreaStruct * numAreas req)) in
  let offset := roundToBoundary offset alignof_ufsNodeStruct in
  store64 (offsets header UFS_TYPES_NODE) offset ;;
  let offset := wrap64 (offset + wrap64 (sizeof_ufsNodeStruct * numNodes req)) in
  let offset := roundToBoundary offset alignof_char in
  store64 (offsets header UFS_TYPES_STRING) offset ;;
  ret img.

Definition ufsHeaderInit (path : option string) (req : ufsHeaderSizeRequestStruct)
    (s : Sys) : M ufsImagePtr :=
  match path with
  | None => assign_ufsErrno UFS_BAD_CALL ;; ret NULL
  | Some p =>
      if (numFiles req =? 0) || (numAreas req =? 0) || (numNodes req =? 0)
         || (numStrBytes req =? 0)
      then assign_ufsErrno UFS_BAD_CALL ;; ret NULL
      else
        do found <- sys_access p ;
        if found then assign_ufsErrno UFS_BAD_CALL ;; ret NULL
        else
          do pageSize <- sysconf_SC_PAGESIZE ;
          do r <- ufsImageCreate path (resolveSize (wrap64 pageSize) req) s ;
          match r with
          | None => ret NULL
          | Some _ =>
              do mounted <- mountHeader r req ;
              ufsHeaderValidate mounted
          end
  end.

(** ** Running the code on small worlds *)

Definition empty_world : World :=
  {| files := ∅; maps := ∅; ufsErrno := 0; sc_pagesize := 4096; trace := [] |}.

Definition outcome_value {A} (o : Outcome A) : option A :=
  match o with Ret a _ => Some a | Fault => None end.
Definition outcome_world {A} (o : Outcome A) : option World :=
  match o with Ret _ w => Some w | Fault => None end.


(** * Properties *)

(** ** Evaluation helpers *)

Ltac run :=
  cbv [ufsImageOpen ufsImageCreate ufsImageSync ufsImageFree ufsHeaderInit
       ufsHeaderValidate mountHeader
       bind ret assign_ufsErrno sys_access sys_open sys_fstat sys_ftruncate
       sys_mmap sys_close perror sys_msync sys_munmap sysconf_SC_PAGESIZE
       load64 load32 store64 store32
       image_ptr ptr_add ufsHeaderGet magicNumber version sizes offsets NULL];
  cbn [files maps ufsErrno sc_pagesize trace set_files set_maps set_ufsErrno
       log p_base p_off m_path m_len negb].

Lemma access_found (w : World) (p : string) (bs : list byte) :
  files w !! p = Some bs -> bool_decide (is_Some (files w !! p)) = true.
Proof. intros H. apply bool_decide_eq_true. rewrite H. eauto. Qed.

Lemma access_not_found (w : World) (p : string) :
  files w !! p = None -> bool_decide (is_Some (files w !! p)) = false.
Proof.
  intros H. apply bool_decide_eq_false. rewrite H. intros [x Hx]. discriminate.
Qed.

Lemma in_extent_true (off : Z) (n : nat) (len : Z) (bs : list byte) :
  0 <= off -> off + Z.of_nat n <= len ->
  off + Z.of_nat n <= Z.of_nat (length bs) ->
  in_extent off n len bs = true.
Proof.
  intros. unfold in_extent. rewrite !andb_true_iff, !Z.leb_le. lia.
Qed.

Lemma in_extent_false (off : Z) (n : nat) (len : Z) (bs : list byte) :
  ~ (0 <= off /\ off + Z.of_nat n <= len /\
     off + Z.of_nat n <= Z.of_nat (length bs)) ->
  in_extent off n len bs = false.
Proof.
  intros H. unfold in_extent. apply not_true_is_false. intros Ht.
  rewrite !andb_true_iff, !Z.leb_le in Ht. apply H. lia.
Qed.

(** A store inside a live mapping rewrites the bytes of the backing file. *)
Lemma store_ok (n : nat) (w : World) (a : addr) (off v : Z) (mp : Mapping)
    (bs : list byte) :
  maps w !! a = Some mp -> files w !! m_path mp = Some bs ->
  0 <= off -> off + Z.of_nat n <= m_len mp ->
  off + Z.of_nat n <= Z.of_nat (length bs) ->
  store n {| p_base := Some a; p_off := off |} v w
  = Ret tt (set_files
              (<[m_path mp := splice (Z.to_nat off) (le_split n v) bs]> (files w))
              w).
Proof.
  intros Hm Hf H0 H1 H2. unfold store, mem_write. cbn [p_base p_off].
  rewrite Hm, Hf, length_le_split, in_extent_true by assumption. reflexivity.
Qed.

Lemma load_ok (n : nat) (w : World) (a : addr) (off : Z) (mp : Mapping)
    (bs : list byte) :
  maps w !! a = Some mp -> files w !! m_path mp = Some bs ->
  0 <= off -> off + Z.of_nat n <= m_len mp ->
  off + Z.of_nat n <= Z.of_nat (length bs) ->
  load n {| p_base := Some a; p_off := off |} w
  = Ret (le_combine (take n (drop (Z.to_nat off) bs))) w.
Proof.
  intros Hm Hf H0 H1 H2. unfold load, bind, ret, mem_read. cbn [p_base p_off].
  rewrite Hm, Hf, in_extent_true by assumption. reflexivity.
Qed.

(** ** C9: opening a null path *)

(** C9. [ufsImageOpen(NULL)] returns null with status [UFS_BAD_CALL]; the
    only change to the world is the status word: no system call is made
    (the trace is unchanged), no file and no mapping is touched. *)
Theorem ufsImageOpen_null_path (s : Sys) (w : World) :
  ufsImageOpen None s w = Ret NULL (set_ufsErrno UFS_BAD_CALL w) /\
  ufsErrno (set_ufsErrno UFS_BAD_CALL w) = UFS_BAD_CALL /\
  trace (set_ufsErrno UFS_BAD_CALL w) = trace w /\
  files (set_ufsErrno UFS_BAD_CALL w) = files w /\
  maps (set_ufsErrno UFS_BAD_CALL w) = maps w.
Proof. repeat split. Qed.

(** ** C7: rejected calls of [ufsHeaderInit] and [ufsImageCreate] *)

(** No system call other than the existence test [access] was added to the
    trace. *)
Definition only_access_since (w w' : World) : Prop :=
  trace w' = trace w \/ exists p, trace w' = trace w ++ [EvAccess p].

(** C7. [ufsHeaderInit] returns null with status [UFS_BAD_CALL] when the
    path is null, when one of the four capacities is zero, or when a file
    exists at the path; then no file is created and neither the files nor
    the mappings change (only [access] may have been called).
    [ufsImageCreate] returns null with [UFS_BAD_CALL] when its path is null
    or its size is below 8, and with [UFS_CANT_CREATE_FILE] when [open]
    fails with [EACCES]. *)
Theorem init_create_rejections
    (path : option string) (req : ufsHeaderSizeRequestStruct) (size : Z)
    (s : Sys) (w : World) :
  ((path = None \/
    numFiles req = 0 \/ numAreas req = 0 \/ numNodes req = 0 \/
    numStrBytes req = 0 \/
    (exists p, path = Some p /\ is_Some (files w !! p))) ->
   exists w',
     ufsHeaderInit path req s w = Ret NULL w' /\
     ufsErrno w' = UFS_BAD_CALL /\
     files w' = files w /\ maps w' = maps w /\ only_access_since w w') /\
  ((path = None \/ size < 8) ->
   ufsImageCreate path size s w = Ret NULL (set_ufsErrno UFS_BAD_CALL w)) /\
  (forall p, path = Some p -> 8 <= size -> r_open s = Some EACCES ->
   exists w',
     ufsImageCreate path size s w = Ret NULL w' /\
     ufsErrno w' = UFS_CANT_CREATE_FILE /\
     files w' = files w /\ maps w' = maps w).
Proof.
  split; [|split].
  - intros H.
    destruct path as [p|].
    2:{ exists (set_ufsErrno UFS_BAD_CALL w). repeat split. now left. }
    run.
    destruct ((numFiles req =? 0) || (numAreas req =? 0) ||
              (numNodes req =? 0) || (numStrBytes req =? 0)) eqn:Hz.
    { exists (set_ufsErrno UFS_BAD_CALL w). repeat split. now left. }
    assert (Hex : is_Some (files w !! p)).
    { destruct H as [H|[H|[H|[H|[H|(q & Hq & Hs)]]]]]; try discriminate;
        try (rewrite H in Hz; cbn in Hz;
             rewrite ?orb_true_r in Hz; discriminate).
      now inversion Hq. }
    rewrite (bool_decide_eq_true_2 _ Hex).
    eexists. repeat split. right. now exists p.
  - intros [->|Hs]; [reflexivity|].
    destruct path as [p|]; [|reflexivity].
    run. unfold sizeof_uint64.
    destruct (Z.ltb_spec size 8); [reflexivity|lia].
  - intros p -> Hs Ho. run. unfold sizeof_uint64.
    destruct (Z.ltb_spec size 8); [lia|].
    rewrite Ho. eexists. repeat split.
Qed.

(** On the path of the test suite, whose directory is not writable, and on
    the empty request of [test_ufs_header_init_bad_arg]. *)
Lemma init_create_rejections_witness :
  (exists w',
     ufsHeaderInit (Some "img"%string)
       {| numFiles := 0; numAreas := 0; numNodes := 0; numStrBytes := 0 |}
       sys_ok empty_world = Ret NULL w' /\
     ufsErrno w' = UFS_BAD_CALL /\ files w' = files empty_world /\
     maps w' = maps empty_world /\ only_access_since empty_world w') /\
  ufsImageCreate (Some "img"%string) 4 sys_ok empty_world
    = Ret NULL (set_ufsErrno UFS_BAD_CALL empty_world) /\
  (exists w',
     ufsImageCreate (Some "/cant_create_here"%string) 128
       {| r_open := Some EACCES; r_fstat := true; r_ftruncate := true;
          r_mmap := true; r_msync := true |} empty_world = Ret NULL w' /\
     ufsErrno w' = UFS_CANT_CREATE_FILE /\ files w' = files empty_world /\
     maps w' = maps empty_world).
Proof.
  split; [|split].
  - apply (proj1 (init_create_rejections (Some "img"%string)
       {| numFiles := 0; numAreas := 0; numNodes := 0; numStrBytes := 0 |}
       128 sys_ok empty_world)).
    right. left. reflexivity.
  - apply (proj1 (proj2 (init_create_rejections (Some "img"%string)
       ufsDefaultSizeRequest 4 sys_ok empty_world))).
    right. lia.
  - apply (proj2 (proj2 (init_create_rejections
       (Some "/cant_create_here"%string) ufsDefaultSizeRequest 128
       {| r_open := Some EACCES; r_fstat := true; r_ftruncate := true;
          r_mmap := true; r_msync := true |} empty_world))
       "/cant_create_here"%string); [reflexivity|lia|reflexivity].
Defined.

(** [ufsImageOpen] on a file of at least 8 bytes when every system call
    succeeds. *)
Lemma ufsImageOpen_success (p : string) (s : Sys) (w : World)
    (bs : list byte) :
  files w !! p = Some bs -> 8 <= Z.of_nat (length bs) ->
  r_open s = None -> r_fstat s = true -> r_mmap s = true ->
  let a := fresh (dom (maps w)) in
  let len := Z.of_nat (length bs) in
  exists w',
    ufsImageOpen (Some p) s w = Ret (Some a) w' /\
    ufsErrno w' = UFS_NO_ERROR /\
    maps w' = <[a := {| m_path := p; m_len := len |}]> (maps w) /\
    files w' = <[p := le_split 8 len ++ drop 8 bs]> (files w).
Proof.
  intros Hf Hlen Ho Hs Hm a len. run.
  rewrite (access_found _ _ _ Hf). cbn.
  rewrite Ho, Hf. cbn. rewrite Hf, Hs.
  unfold sizeof_uint64.
  destruct (Z.ltb_spec (Z.of_nat (length bs)) 8); [lia|].
  rewrite Hm.
  erewrite store_ok;
    [|cbn; apply lookup_insert_eq|cbn; exact Hf|cbn; lia..].
  eexists; repeat split.
Qed.

(** ** C6: the outcomes of [ufsImageOpen] *)

(** C6. For a non-null path: with no file at the path [ufsImageOpen]
    returns null with [UFS_IMAGE_DOES_NOT_EXIST]; with a file shorter than
    8 bytes it returns null with [UFS_IMAGE_TOO_SMALL]; when [open], [fstat]
    or [mmap] fails it returns null with [UFS_UNKNOWN_ERROR]; otherwise it
    returns a fresh shared mapping of the whole file, whose first 8 bytes
    it has overwritten with the length of the file, and sets
    [UFS_NO_ERROR]. *)
Theorem ufsImageOpen_outcomes (p : string) (s : Sys) (w : World) :
  (files w !! p = None ->
   ufsImageOpen (Some p) s w
   = Ret NULL (set_ufsErrno UFS_IMAGE_DOES_NOT_EXIST (log (EvAccess p) w))) /\
  (forall bs, files w !! p = Some bs -> Z.of_nat (length bs) < 8 ->
   exists w',
     ufsImageOpen (Some p) s w = Ret NULL w' /\
     ufsErrno w' = UFS_IMAGE_TOO_SMALL /\
     files w' = files w /\ maps w' = maps w) /\
  (forall bs, files w !! p = Some bs ->
   (is_Some (r_open s) \/ r_fstat s = false \/
    (8 <= Z.of_nat (length bs) /\ r_mmap s = false)) ->
   exists w',
     ufsImageOpen (Some p) s w = Ret NULL w' /\
     ufsErrno w' = UFS_UNKNOWN_ERROR /\
     files w' = files w /\ maps w' = maps w) /\
  (forall bs, files w !! p = Some bs -> 8 <= Z.of_nat (length bs) ->
   r_open s = None -> r_fstat s = true -> r_mmap s = true ->
   let a := fresh (dom (maps w)) in
   let len := Z.of_nat (length bs) in
   exists w',
     ufsImageOpen (Some p) s w = Ret (Some a) w' /\
     ufsErrno w' = UFS_NO_ERROR /\
     maps w' = <[a := {| m_path := p; m_len := len |}]> (maps w) /\
     files w' = <[p := le_split 8 len ++ drop 8 bs]> (files w)).
Proof.
  split; [|split; [|split]].
  - intros Hf. run. now rewrite (access_not_found _ _ Hf).
  - intros bs Hf Hlen. run. rewrite (access_found _ _ _ Hf). cbn.
    destruct (r_open s) as [e|]; [eexists; repeat split|].
    rewrite Hf. cbn. rewrite Hf.
    destruct (r_fstat s); [|eexists; repeat split].
    unfold sizeof_uint64.
    destruct (Z.ltb_spec (Z.of_nat (length bs)) 8); [|lia].
    eexists; repeat split.
  - intros bs Hf Hfail. run. rewrite (access_found _ _ _ Hf). cbn.
    destruct (r_open s) as [e|]; [eexists; repeat split|].
    rewrite Hf. cbn. rewrite Hf.
    destruct (r_fstat s); [|eexists; repeat split].
    destruct Hfail as [[e He]|[He|[Hlen Hm]]]; try discriminate.
    unfold sizeof_uint64.
    destruct (Z.ltb_spec (Z.of_nat (length bs)) 8); [lia|].
    rewrite Hm. eexists; repeat split.
  - intros bs Hf Hlen Ho Hs Hm. now apply ufsImageOpen_success.
Qed.

(** A world with one file and nothing mapped. *)
Definition file_world (p : string) (bs : list byte) : World :=
  set_files (<[p := bs]> ∅) empty_world.

Definition sys_fail_open (e : open_errno) : Sys :=
  {| r_open := Some e; r_fstat := true; r_ftruncate := true;
     r_mmap := true; r_msync := true |}.

(** The four outcomes on the files of the test suite: a missing file, a
    4-byte file, a file that cannot be opened and a 128-byte file. *)
Lemma ufsImageOpen_outcomes_witness :
  ufsImageOpen (Some "does_not_exist"%string) sys_ok empty_world
  = Ret NULL (set_ufsErrno UFS_IMAGE_DOES_NOT_EXIST
                (log (EvAccess "does_not_exist") empty_world)) /\
  (exists w',
     ufsImageOpen (Some "img"%string) sys_ok
       (file_world "img" (replicate 4 Byte.x00)) = Ret NULL w' /\
     ufsErrno w' = UFS_IMAGE_TOO_SMALL /\
     files w' = files (file_world "img" (replicate 4 Byte.x00)) /\
     maps w' = maps (file_world "img" (replicate 4 Byte.x00))) /\
  (exists w',
     ufsImageOpen (Some "img"%string) (sys_fail_open EACCES)
       (file_world "img" (replicate 128 Byte.x00)) = Ret NULL w' /\
     ufsErrno w' = UFS_UNKNOWN_ERROR /\
     files w' = files (file_world "img" (replicate 128 Byte.x00)) /\
     maps w' = maps (file_world "img" (replicate 128 Byte.x00))) /\
  (exists w',
     ufsImageOpen (Some "img"%string) sys_ok
       (file_world "img" (replicate 128 Byte.x00)) = Ret (Some 1%positive) w' /\
     ufsErrno w' = UFS_NO_ERROR /\
     maps w' = <[1%positive := {| m_path := "img"; m_len := 128 |}]> ∅ /\
     files w' = <["img"%string := le_split 8 128 ++ replicate 120 Byte.x00]>
                  (files (file_world "img" (replicate 128 Byte.x00)))).
Proof.
  split; [|split; [|split]].
  - apply (proj1 (ufsImageOpen_outcomes "does_not_exist" sys_ok empty_world)).
    reflexivity.
  - apply (proj1 (proj2 (ufsImageOpen_outcomes "img" sys_ok
             (file_world "img" (replicate 4 Byte.x00))))
             (replicate 4 Byte.x00)); [reflexivity|cbn; lia].
  - apply (proj1 (proj2 (proj2 (ufsImageOpen_outcomes "img" (sys_fail_open EACCES)
             (file_world "img" (replicate 128 Byte.x00)))))
             (replicate 128 Byte.x00)); [reflexivity|].
    left. cbn. eauto.
  - apply (proj2 (proj2 (proj2 (ufsImageOpen_outcomes "img" sys_ok
             (file_world "img" (replicate 128 Byte.x00)))))
             (replicate 128 Byte.x00)); try reflexivity. cbn; lia.
Defined.

(** ** C8: [ufsImageFree] and the null handle *)

(** C8 fails on the code: [ufsImageFree(NULL)] does not return normally,
    because the length word is read through the handle before anything
    else is done. *)
Lemma ufsImageFree_null_counterexample :
  ~ (ufsImageFree NULL empty_world = Ret tt empty_world) /\
  ufsImageFree NULL empty_world = Fault.
Proof. split; [discriminate|reflexivity]. Qed.

(** C8, as the code has it.  [ufsImageFree] has no null check: on a null
    handle the read of the length word is a fault, in every world; the call
    returns only for a live image whose length word is mapped, and then it
    has read that word, passed it to [munmap], and changed neither the
    files nor the status word; for every such image it does return. *)
Theorem ufsImageFree_reads_length_word (img : ufsImagePtr) (w : World) :
  (img = NULL -> ufsImageFree img w = Fault) /\
  (forall w', ufsImageFree img w = Ret tt w' ->
   exists a mp bs,
     img = Some a /\ maps w !! a = Some mp /\
     files w !! m_path mp = Some bs /\
     trace w' = trace w ++ [EvMunmap a (le_combine (take 8 bs))] /\
     files w' = files w /\ ufsErrno w' = ufsErrno w) /\
  (forall a mp bs, img = Some a -> maps w !! a = Some mp ->
   files w !! m_path mp = Some bs ->
   8 <= m_len mp -> 8 <= Z.of_nat (length bs) ->
   exists w', ufsImageFree img w = Ret tt w').
Proof.
  split; [|split].
  - intros ->. reflexivity.
  - intros w'. run. unfold load, bind, ret, mem_read. cbn [p_base p_off].
    destruct img as [a|]; [|discriminate].
    destruct (maps w !! a) as [mp|] eqn:Hm; [|discriminate].
    destruct (files w !! m_path mp) as [bs|] eqn:Hf; [|discriminate].
    destruct (in_extent 0 8 (m_len mp) bs); [|discriminate].
    change (Z.to_nat 0) with 0%nat. cbn [drop].
    destruct (0 <? _); intros [= <-];
      exists a, mp, bs; repeat split; assumption.
  - intros a mp bs -> Hm Hf Hl Hb. run.
    erewrite load_ok by (eassumption || lia).
    destruct (0 <? _); eexists; reflexivity.
Qed.

Lemma ufsImageFree_reads_length_word_witness :
  ufsImageFree NULL empty_world = Fault /\
  exists w',
    ufsImageFree (Some 1%positive)
      (set_maps (<[1%positive := {| m_path := "img"; m_len := 128 |}]> ∅)
         (file_world "img" (le_split 8 128 ++ replicate 120 Byte.x00)))
    = Ret tt w'.
Proof.
  split.
  - apply (proj1 (ufsImageFree_reads_length_word NULL empty_world)).
    reflexivity.
  - apply (proj2 (proj2 (ufsImageFree_reads_length_word (Some 1%positive)
             (set_maps (<[1%positive := {| m_path := "img"; m_len := 128 |}]> ∅)
                (file_world "img" (le_split 8 128 ++ replicate 120 Byte.x00)))))
             1%positive {| m_path := "img"; m_len := 128 |}
             (le_split 8 128 ++ replicate 120 Byte.x00));
      try reflexivity; now vm_compute.
Defined.

(** ** The header inside the bytes of an image *)

(** The scalar of [n] bytes at byte offset [off] of an image. *)
Definition field (n off : nat) (bs : list byte) : Z :=
  le_combine (take n (drop off bs)).

(** The fields of [*ufsHeaderGet(img)], read from the bytes of the image. *)
Definition hdr_magicNumber (bs : list byte) : Z := field 4 8 bs.
Definition hdr_version (bs : list byte) : Z := field 4 12 bs.
Definition hdr_sizes (t : nat) (bs : list byte) : Z := field 8 (16 + 8 * t) bs.
Definition hdr_offsets (t : nat) (bs : list byte) : Z := field 8 (48 + 8 * t) bs.
Definition length_word (bs : list byte) : Z := field 8 0 bs.

(** The end of the header: [ufsHeaderGet(img) + 1] as a byte offset. *)
Definition header_end : Z :=
  roundToBoundary sizeof_uint64 alignof_ufsHeaderStruct + sizeof_ufsHeaderStruct.

(** [a] is a live mapping whose bytes are [bs], and the whole header lies
    inside the mapped extent and inside the file. *)
Definition header_mapped (w : World) (a : addr) (bs : list byte) : Prop :=
  exists mp, maps w !! a = Some mp /\ files w !! m_path mp = Some bs /\
             header_end <= m_len mp /\ header_end <= Z.of_nat (length bs).

(** The ends of the two fields that [ufsHeaderValidate] reads, as byte
    offsets into the image. *)
Definition magicNumber_end : Z :=
  roundToBoundary sizeof_uint64 alignof_ufsHeaderStruct + offsetof_magicNumber + 4.
Definition version_end : Z :=
  roundToBoundary sizeof_uint64 alignof_ufsHeaderStruct + offsetof_version + 4.

(** [a] is a live mapping whose bytes are [bs], and the first [n] bytes of
    the image lie inside the mapped extent and inside the file. *)
Definition image_holds (n : Z) (w : World) (a : addr) (bs : list byte) : Prop :=
  exists mp, maps w !! a = Some mp /\ files w !! m_path mp = Some bs /\
             n <= m_len mp /\ n <= Z.of_nat (length bs).

Lemma header_offset : roundToBoundary sizeof_uint64 alignof_ufsHeaderStruct = 8.
Proof. reflexivity. Qed.

Lemma header_end_eq : header_end = 80.
Proof. reflexivity. Qed.

Ltac field_bounds :=
  rewrite ?header_offset;
  unfold offsetof_magicNumber, offsetof_version, offsetof_sizes,
    offsetof_offsets, UFS_TYPES_FILE, UFS_TYPES_AREA, UFS_TYPES_NODE,
    UFS_TYPES_STRING in *;
  rewrite ?header_end_eq in *; lia.

Lemma ufsHeaderValidate_eval (w : World) (a : addr) (bs : list byte) :
  header_mapped w a bs ->
  ufsHeaderValidate (Some a) w
  = if negb (hdr_magicNumber bs =? UFS_MAGIC_NUMBER)
    then Ret NULL (set_ufsErrno UFS_IMAGE_IS_CORRUPTED w)
    else if negb (hdr_version bs =? UFS_INDEX_VERSION)
         then Ret NULL (set_ufsErrno UFS_VERSION_MISMATCH w)
         else Ret (Some a) w.
Proof.
  intros (mp & Hm & Hf & Hl & Hb). run.
  erewrite load_ok by (eassumption || field_bounds).
  change (le_combine _) with (hdr_magicNumber bs).
  destruct (hdr_magicNumber bs =? UFS_MAGIC_NUMBER); [|reflexivity].
  cbn [negb].
  erewrite load_ok by (eassumption || field_bounds).
  change (le_combine _) with (hdr_version bs).
  destruct (negb _); reflexivity.
Qed.

Lemma load_frame (n : nat) (p : Ptr) (w w' : World) (v : Z) :
  load n p w = Ret v w' -> w' = w.
Proof.
  unfold load, bind, ret, mem_read.
  destruct (p_base p); [|discriminate].
  destruct (maps w !! _); [|discriminate].
  destruct (files w !! _); [|discriminate].
  destruct (in_extent _ _ _ _); [|discriminate].
  now intros [= _ <-].
Qed.

Lemma ufsHeaderValidate_ret (img r : ufsImagePtr) (w w' : World) :
  ufsHeaderValidate img w = Ret r w' ->
  (r = img /\ w' = w) \/
  (r = NULL /\ (w' = set_ufsErrno UFS_IMAGE_IS_CORRUPTED w \/
                w' = set_ufsErrno UFS_VERSION_MISMATCH w)).
Proof.
  run. unfold bind.
  destruct (load 4 _ w) as [magic w1|] eqn:E1; [|discriminate].
  apply load_frame in E1 as ->.
  destruct (negb (magic =? UFS_MAGIC_NUMBER)).
  { intros [= <- <-]. right. split; [reflexivity|now left]. }
  destruct (load 4 _ w) as [vers w2|] eqn:E2; [|discriminate].
  apply load_frame in E2 as ->.
  destruct (negb (vers =? UFS_INDEX_VERSION)).
  { intros [= <- <-]. right. split; [reflexivity|now right]. }
  intros [= <- <-]. now left.
Qed.

Lemma magicNumber_end_eq : magicNumber_end = 12.
Proof. reflexivity. Qed.

Lemma version_end_eq : version_end = 16.
Proof. reflexivity. Qed.

Lemma image_holds_le (n m : Z) (w : World) (a : addr) (bs : list byte) :
  n <= m -> image_holds m w a bs -> image_holds n w a bs.
Proof.
  intros Hn (mp & Hm & Hf & Hl & Hb). exists mp. repeat split; auto; lia.
Qed.

Lemma header_mapped_holds (w : World) (a : addr) (bs : list byte) :
  header_mapped w a bs -> image_holds version_end w a bs.
Proof.
  intros (mp & Hm & Hf & Hl & Hb). rewrite header_end_eq in *.
  exists mp. rewrite version_end_eq. repeat split; auto; lia.
Qed.

(** The first read of [ufsHeaderValidate] needs the magic number only. *)
Lemma ufsHeaderValidate_bad_magic (w : World) (a : addr) (bs : list byte) :
  image_holds magicNumber_end w a bs ->
  hdr_magicNumber bs <> UFS_MAGIC_NUMBER ->
  ufsHeaderValidate (Some a) w
  = Ret NULL (set_ufsErrno UFS_IMAGE_IS_CORRUPTED w).
Proof.
  intros (mp & Hm & Hf & Hl & Hb) Hmg. rewrite magicNumber_end_eq in *. run.
  erewrite load_ok by (eassumption || field_bounds).
  change (le_combine _) with (hdr_magicNumber bs).
  destruct (Z.eqb_spec (hdr_magicNumber bs) UFS_MAGIC_NUMBER);
    [contradiction|reflexivity].
Qed.

Lemma ufsHeaderValidate_fields (w : World) (a : addr) (bs : list byte) :
  image_holds version_end w a bs ->
  ufsHeaderValidate (Some a) w
  = if negb (hdr_magicNumber bs =? UFS_MAGIC_NUMBER)
    then Ret NULL (set_ufsErrno UFS_IMAGE_IS_CORRUPTED w)
    else if negb (hdr_version bs =? UFS_INDEX_VERSION)
         then Ret NULL (set_ufsErrno UFS_VERSION_MISMATCH w)
         else Ret (Some a) w.
Proof.
  intros (mp & Hm & Hf & Hl & Hb). rewrite version_end_eq in *. run.
  erewrite load_ok by (eassumption || field_bounds).
  change (le_combine _) with (hdr_magicNumber bs).
  destruct (hdr_magicNumber bs =? UFS_MAGIC_NUMBER); [|reflexivity].
  cbn [negb].
  erewrite load_ok by (eassumption || field_bounds).
  change (le_combine _) with (hdr_version bs).
  destruct (negb _); reflexivity.
Qed.

(** Whether a call returned null, and the status word it left. *)
Definition verdict (o : Outcome ufsImagePtr) : option (bool * Z) :=
  match o with
  | Ret r w => Some (bool_decide (r = NULL), ufsErrno w)
  | Fault => None
  end.

(** ** C2: what [ufsHeaderValidate] decides *)

(** C2. [ufsHeaderValidate] reads two fields of the image and nothing
    else: the magic number at bytes 8..12 and, when the magic number is
    right, the version at bytes 12..16.  On every live image that holds its
    magic number, a wrong magic number gives null with
    [UFS_IMAGE_IS_CORRUPTED].  On every live image that holds its version
    as well, whatever its length beyond that, [ufsHeaderValidate] returns
    the image, in an unchanged world, exactly when the magic number is
    [UFS_MAGIC_NUMBER] and the version is [UFS_INDEX_VERSION]; with the
    right magic number and a wrong version it returns null with
    [UFS_VERSION_MISMATCH]; and two images that agree on these two fields
    get the same verdict whatever their lengths and their other bytes
    are. *)
Theorem ufsHeaderValidate_decides (w : World) (a : addr) (bs : list byte) :
  image_holds magicNumber_end w a bs ->
  (hdr_magicNumber bs <> UFS_MAGIC_NUMBER ->
   ufsHeaderValidate (Some a) w
   = Ret NULL (set_ufsErrno UFS_IMAGE_IS_CORRUPTED w)) /\
  (image_holds version_end w a bs ->
   (hdr_magicNumber bs = UFS_MAGIC_NUMBER /\
    hdr_version bs = UFS_INDEX_VERSION ->
    ufsHeaderValidate (Some a) w = Ret (Some a) w) /\
   (hdr_magicNumber bs = UFS_MAGIC_NUMBER ->
    hdr_version bs <> UFS_INDEX_VERSION ->
    ufsHeaderValidate (Some a) w
    = Ret NULL (set_ufsErrno UFS_VERSION_MISMATCH w)) /\
   ((exists w', ufsHeaderValidate (Some a) w = Ret (Some a) w') <->
    hdr_magicNumber bs = UFS_MAGIC_NUMBER /\
    hdr_version bs = UFS_INDEX_VERSION) /\
   (forall w2 a2 bs2, image_holds version_end w2 a2 bs2 ->
    hdr_magicNumber bs2 = hdr_magicNumber bs ->
    hdr_version bs2 = hdr_version bs ->
    ufsErrno w2 = ufsErrno w ->
    verdict (ufsHeaderValidate (Some a2) w2)
    = verdict (ufsHeaderValidate (Some a) w))).
Proof.
  intros Hmg. split; [now apply ufsHeaderValidate_bad_magic|].
  intros Hh. pose proof (ufsHeaderValidate_fields _ _ _ Hh) as E.
  split; [|split; [|split]].
  - intros [Hm Hv]. rewrite E, Hm, Hv. reflexivity.
  - intros Hm Hv. rewrite E, Hm. cbn.
    destruct (Z.eqb_spec (hdr_version bs) UFS_INDEX_VERSION);
      [contradiction|reflexivity].
  - split.
    + intros [w' Hw]. rewrite E in Hw.
      destruct (Z.eqb_spec (hdr_magicNumber bs) UFS_MAGIC_NUMBER);
        [|discriminate].
      destruct (Z.eqb_spec (hdr_version bs) UFS_INDEX_VERSION);
        [|discriminate].
      now split.
    + intros [Hm Hv]. exists w. rewrite E, Hm, Hv. reflexivity.
  - intros w2 a2 bs2 Hh2 Em Ev Ee.
    rewrite E, (ufsHeaderValidate_fields _ _ _ Hh2), Em, Ev.
    destruct (negb (hdr_magicNumber bs =? _)); [reflexivity|].
    destruct (negb (hdr_version bs =? _)); [reflexivity|].
    cbn. now rewrite Ee.
Qed.

(** *** Concrete images *)

Definition world_after {A} (o : Outcome A) : World :=
  match o with Ret _ w => w | Fault => empty_world end.

(** The bytes seen through a live image. *)
Definition image_bytes (w : World) (a : addr) : list byte :=
  match maps w !! a with
  | Some mp => default [] (files w !! m_path mp)
  | None => []
  end.

(** Scenario 1 of the test suite: a fresh image for one file, one area, one
    node and 64 string bytes. *)
Definition small_request : ufsHeaderSizeRequestStruct :=
  {| numFiles := 1; numAreas := 1; numNodes := 1; numStrBytes := 64 |}.
Definition fresh_image : World :=
  world_after (ufsHeaderInit (Some "/tmp/img"%string) small_request sys_ok
                 empty_world).
Definition image1 : ufsImagePtr := Some 1%positive.

(** [header -> magicNumber = 123] and [header -> version = 0], as in
    [test_ufs_header_validate_corrupted_magic_number] and
    [test_ufs_header_validate_bad_version]. *)
Definition bad_magic_image : World :=
  world_after (store32 (magicNumber (ufsHeaderGet image1)) 123 fresh_image).
Definition bad_version_image : World :=
  world_after (store32 (version (ufsHeaderGet image1)) 0 fresh_image).

Ltac by_computation := vm_compute; first [reflexivity | congruence].

Lemma fresh_image_mapped :
  header_mapped fresh_image 1%positive (image_bytes fresh_image 1%positive).
Proof. eexists. repeat split; by_computation. Qed.

Lemma bad_magic_image_mapped :
  header_mapped bad_magic_image 1%positive (image_bytes bad_magic_image 1%positive).
Proof. eexists. repeat split; by_computation. Qed.

Lemma bad_version_image_mapped :
  header_mapped bad_version_image 1%positive (image_bytes bad_version_image 1%positive).
Proof. eexists. repeat split; by_computation. Qed.

Lemma fresh_image_accepted :
  ufsHeaderValidate image1 fresh_image = Ret image1 fresh_image.
Proof. by_computation. Qed.

Lemma bad_magic_image_rejected :
  ufsHeaderValidate image1 bad_magic_image
  = Ret NULL (set_ufsErrno UFS_IMAGE_IS_CORRUPTED bad_magic_image).
Proof. by_computation. Qed.

(** Images shorter than a header, as [ufsImageOpen] returns them for any
    file of 8 bytes or more: a 16-byte file that holds a length word, the
    magic number and the version, and a 12-byte file of zeros. *)
Definition short_image : World :=
  world_after
    (ufsImageOpen (Some "img"%string) sys_ok
       (file_world "img"
          (le_split 8 16 ++ le_split 4 UFS_MAGIC_NUMBER
           ++ le_split 4 UFS_INDEX_VERSION))).
Definition short_blank_image : World :=
  world_after
    (ufsImageOpen (Some "img"%string) sys_ok
       (file_world "img" (replicate 12 Byte.x00))).

Lemma fresh_image_holds :
  image_holds version_end fresh_image 1%positive
    (image_bytes fresh_image 1%positive).
Proof. apply header_mapped_holds, fresh_image_mapped. Qed.

Lemma bad_magic_image_holds :
  image_holds magicNumber_end bad_magic_image 1%positive
    (image_bytes bad_magic_image 1%positive).
Proof.
  apply (image_holds_le _ version_end); [by_computation|].
  apply header_mapped_holds, bad_magic_image_mapped.
Qed.

Lemma bad_version_image_holds :
  image_holds version_end bad_version_image 1%positive
    (image_bytes bad_version_image 1%positive).
Proof. apply header_mapped_holds, bad_version_image_mapped. Qed.

Lemma short_image_holds :
  image_holds version_end short_image 1%positive
    (image_bytes short_image 1%positive).
Proof. eexists. repeat split; by_computation. Qed.

Lemma short_blank_image_holds :
  image_holds magicNumber_end short_blank_image 1%positive
    (image_bytes short_blank_image 1%positive).
Proof. eexists. repeat split; by_computation. Qed.

Lemma ufsHeaderValidate_decides_witness :
  ufsHeaderValidate image1 fresh_image = Ret image1 fresh_image /\
  ufsHeaderValidate image1 bad_magic_image
  = Ret NULL (set_ufsErrno UFS_IMAGE_IS_CORRUPTED bad_magic_image) /\
  ufsHeaderValidate image1 bad_version_image
  = Ret NULL (set_ufsErrno UFS_VERSION_MISMATCH bad_version_image) /\
  ufsHeaderValidate image1 short_image = Ret image1 short_image /\
  ufsHeaderValidate image1 short_blank_image
  = Ret NULL (set_ufsErrno UFS_IMAGE_IS_CORRUPTED short_blank_image).
Proof.
  split; [|split; [|split; [|split]]].
  - apply (proj1 (proj2 (ufsHeaderValidate_decides _ _ _
             (image_holds_le magicNumber_end version_end _ _ _
                ltac:(by_computation)
                fresh_image_holds)) fresh_image_holds)).
    split; by_computation.
  - apply (proj1 (ufsHeaderValidate_decides _ _ _ bad_magic_image_holds)).
    by_computation.
  - apply (proj1 (proj2 (proj2 (ufsHeaderValidate_decides _ _ _
             (image_holds_le magicNumber_end version_end _ _ _
                ltac:(by_computation)
                bad_version_image_holds)) bad_version_image_holds)));
      by_computation.
  - apply (proj1 (proj2 (ufsHeaderValidate_decides _ _ _
             (image_holds_le magicNumber_end version_end _ _ _
                ltac:(by_computation)
                short_image_holds)) short_image_holds)).
    split; by_computation.
  - apply (proj1 (ufsHeaderValidate_decides _ _ _ short_blank_image_holds)).
    by_computation.
Defined.

(** ** C10: [ufsHeaderValidate] writes nothing *)

(** C10. Whatever the image, a call of [ufsHeaderValidate] that returns
    leaves every file (hence every byte of the image), every mapping and
    the trace of system calls as they were, and returns the image or null:
    a rejected image is still mapped.  The call fails to return only when
    the header is not inside a live mapping. *)
Theorem ufsHeaderValidate_frame (img : ufsImagePtr) (w : World) :
  match ufsHeaderValidate img w with
  | Ret r w' =>
      files w' = files w /\ maps w' = maps w /\ trace w' = trace w /\
      (r = img \/ r = NULL)
  | Fault => forall a bs, img = Some a -> ~ header_mapped w a bs
  end.
Proof.
  destruct (ufsHeaderValidate img w) as [r w'|] eqn:E.
  - apply ufsHeaderValidate_ret in E as [[-> ->]|[-> [->| ->]]];
      repeat split; auto.
  - intros a bs -> Hh. rewrite (ufsHeaderValidate_eval _ _ _ Hh) in E.
    destruct (negb _); [discriminate|].
    destruct (negb _); discriminate.
Qed.

(** On the image of scenario 1 and on the same image with a corrupted
    magic number. *)
Lemma ufsHeaderValidate_frame_witness :
  (files fresh_image = files fresh_image /\
   maps fresh_image = maps fresh_image /\
   trace fresh_image = trace fresh_image /\
   (image1 = image1 \/ image1 = NULL)) /\
  (files (set_ufsErrno UFS_IMAGE_IS_CORRUPTED bad_magic_image)
   = files bad_magic_image /\
   maps (set_ufsErrno UFS_IMAGE_IS_CORRUPTED bad_magic_image)
   = maps bad_magic_image /\
   trace (set_ufsErrno UFS_IMAGE_IS_CORRUPTED bad_magic_image)
   = trace bad_magic_image /\
   (NULL = image1 \/ NULL = NULL)).
Proof.
  split.
  - pose proof (ufsHeaderValidate_frame image1 fresh_image) as H.
    rewrite fresh_image_accepted in H. exact H.
  - pose proof (ufsHeaderValidate_frame image1 bad_magic_image) as H.
    rewrite bad_magic_image_rejected in H. exact H.
Defined.

(** ** Bytes: splicing and reading back *)

Lemma length_splice (off : nat) (new old : list byte) :
  (off + length new <= length old)%nat ->
  length (splice off new old) = length old.
Proof.
  intros H. unfold splice. rewrite !length_app, length_take, length_drop. lia.
Qed.

Lemma read_splice_same (off n : nat) (new old : list byte) :
  n = length new -> (off <= length old)%nat ->
  take n (drop off (splice off new old)) = new.
Proof.
  intros -> H. unfold splice.
  rewrite drop_app_length' by (rewrite length_take; lia).
  apply take_app_length.
Qed.

Lemma read_splice_before (off off' n : nat) (new old : list byte) :
  (off' + n <= off)%nat -> (off <= length old)%nat ->
  take n (drop off' (splice off new old)) = take n (drop off' old).
Proof.
  intros H Hl. unfold splice. rewrite !take_drop_commute. f_equal.
  rewrite take_app_le by (rewrite length_take; lia).
  rewrite take_take. f_equal. lia.
Qed.

Lemma read_splice_after (off off' n : nat) (new old : list byte) :
  (off + length new <= off')%nat -> (off + length new <= length old)%nat ->
  take n (drop off' (splice off new old)) = take n (drop off' old).
Proof.
  intros H Hl. unfold splice. f_equal. rewrite app_assoc.
  rewrite drop_app_ge by (rewrite length_app, length_take; lia).
  rewrite drop_drop. f_equal. rewrite length_app, length_take. lia.
Qed.

(** Storing the scalar [v] of [n] bytes at offset [off]. *)
Definition poke (n off : nat) (v : Z) (bs : list byte) : list byte :=
  splice off (le_split n v) bs.

Lemma length_poke (n off : nat) (v : Z) (bs : list byte) :
  (off + n <= length bs)%nat -> length (poke n off v bs) = length bs.
Proof. intros H. apply length_splice. now rewrite length_le_split. Qed.

Lemma field_poke_same (n off : nat) (v : Z) (bs : list byte) :
  (off + n <= length bs)%nat ->
  field n off (poke n off v bs) = v mod 2 ^ (Z.of_nat n * 8).
Proof.
  intros H. unfold field, poke.
  rewrite read_splice_same by (rewrite ?length_le_split; lia).
  apply le_combine_split.
Qed.

Lemma field_poke_other (n off m off' : nat) (v : Z) (bs : list byte) :
  (off' + m <= length bs)%nat ->
  (off + n <= off' \/ off' + m <= off)%nat ->
  field n off (poke m off' v bs) = field n off bs.
Proof.
  intros Hl [H|H]; unfold field, poke.
  - now rewrite read_splice_before by lia.
  - now rewrite read_splice_after by (rewrite length_le_split; lia).
Qed.

(** ** Stores into an image, as functions on its bytes *)

(** The world in which the file at [p] holds [bs]. *)
Definition with_bytes (p : string) (bs : list byte) (w : World) : World :=
  set_files (<[p := bs]> (files w)) w.

Lemma with_bytes_id (w : World) (p : string) (bs : list byte) :
  files w !! p = Some bs -> with_bytes p bs w = w.
Proof.
  intros H. destruct w. unfold with_bytes, set_files. cbn in *.
  f_equal. now apply insert_id.
Qed.

Lemma with_bytes_twice (w : World) (p : string) (b1 b2 : list byte) :
  with_bytes p b2 (with_bytes p b1 w) = with_bytes p b2 w.
Proof.
  unfold with_bytes, set_files. cbn. f_equal. apply insert_insert_eq.
Qed.

Lemma in_extent_spec (off : Z) (n : nat) (len : Z) (bs : list byte) :
  in_extent off n len bs = true <->
  0 <= off /\ off + Z.of_nat n <= len /\ off + Z.of_nat n <= Z.of_nat (length bs).
Proof.
  unfold in_extent. rewrite !andb_true_iff, !Z.leb_le. tauto.
Qed.

Lemma in_extent_not (off : Z) (n : nat) (len : Z) (bs : list byte) :
  in_extent off n len bs = false ->
  ~ (0 <= off /\ off + Z.of_nat n <= len /\
     off + Z.of_nat n <= Z.of_nat (length bs)).
Proof. intros E H. apply in_extent_spec in H. congruence. Qed.

Lemma store_with_bytes (n : nat) (w : World) (a : addr) (off v : Z)
    (mp : Mapping) (bs : list byte) :
  maps w !! a = Some mp ->
  store n {| p_base := Some a; p_off := off |} v (with_bytes (m_path mp) bs w)
  = if in_extent off n (m_len mp) bs
    then Ret tt (with_bytes (m_path mp) (poke n (Z.to_nat off) v bs) w)
    else Fault.
Proof.
  intros Hm. unfold store, mem_write. cbn [p_base p_off].
  change (maps (with_bytes (m_path mp) bs w)) with (maps w). rewrite Hm.
  change (files (with_bytes (m_path mp) bs w))
    with (<[m_path mp := bs]> (files w)).
  rewrite lookup_insert_eq, length_le_split.
  destruct (in_extent off n (m_len mp) bs); [|reflexivity].
  f_equal. apply with_bytes_twice.
Qed.

(** The bytes of an image after [mountHeader]: the ten stores, in program
    order, the innermost first. *)
Definition mount_bytes (req : ufsHeaderSizeRequestStruct) (bs : list byte)
  : list byte :=
  let '(o_file, o_area, o_node, o_string) := table_offsets req in
  poke 8 72 o_string
    (poke 8 64 o_node
       (poke 8 56 o_area
          (poke 8 48 o_file
             (poke 8 40 (numStrBytes req)
                (poke 8 32 (numNodes req)
                   (poke 8 24 (numAreas req)
                      (poke 8 16 (numFiles req)
                         (poke 4 12 UFS_INDEX_VERSION
                            (poke 4 8 UFS_MAGIC_NUMBER bs))))))))).

Ltac closed_offsets :=
  repeat match goal with
    | |- context [ {| p_base := ?b; p_off := ?o |} ] =>
        progress (let o' := eval vm_compute in o in change o with o')
    end.

Lemma store_with_bytes_len (n : nat) (w : World) (a : addr) (off v : Z)
    (mp : Mapping) (bs bs0 : list byte) :
  maps w !! a = Some mp -> length bs = length bs0 ->
  store n {| p_base := Some a; p_off := off |} v (with_bytes (m_path mp) bs w)
  = if in_extent off n (m_len mp) bs0
    then Ret tt (with_bytes (m_path mp) (poke n (Z.to_nat off) v bs) w)
    else Fault.
Proof.
  intros Hm Hl. rewrite (store_with_bytes _ _ _ _ _ _ _ Hm).
  unfold in_extent. now rewrite Hl.
Qed.

Lemma length_poke_in (n : nat) (off v len : Z) (bs bs0 : list byte) :
  length bs = length bs0 -> in_extent off n len bs0 = true ->
  length (poke n (Z.to_nat off) v bs) = length bs0.
Proof.
  intros Hl E. apply in_extent_spec in E.
  rewrite length_poke; [assumption|lia].
Qed.

(** One store of a straight-line sequence into the image [a], whose bytes
    were [bs] at the start: either it is inside the extent, or the whole
    sequence faults. *)
Ltac store_step Hm a mp bs :=
  match goal with
  | L : length ?b = length bs
    |- context [store ?n {| p_base := Some a; p_off := ?o |} ?v
                  (with_bytes _ ?b ?w)] =>
      rewrite (store_with_bytes_len n w a o v mp b bs Hm L);
      let E := fresh "E" in
      destruct (in_extent o n (m_len mp) bs) eqn:E;
      [ pose proof (length_poke_in n o v (m_len mp) b bs L E);
        clear L; apply in_extent_spec in E
      | apply in_extent_not in E;
        rewrite header_end_eq;
        destruct (Z.leb_spec 80 (m_len mp)); [|reflexivity];
        destruct (Z.leb_spec 80 (Z.of_nat (length bs))); [|reflexivity];
        exfalso; apply E; lia ]
  end.

Lemma mountHeader_eval (w : World) (a : addr) (mp : Mapping) (bs : list byte)
    (req : ufsHeaderSizeRequestStruct) :
  maps w !! a = Some mp -> files w !! m_path mp = Some bs ->
  mountHeader (Some a) req w
  = if (header_end <=? m_len mp) && (header_end <=? Z.of_nat (length bs))
    then Ret (Some a) (with_bytes (m_path mp) (mount_bytes req bs) w)
    else Fault.
Proof.
  intros Hm Hf. rewrite <- (with_bytes_id w _ _ Hf) at 1.
  assert (L : length bs = length bs) by reflexivity.
  run. closed_offsets.
  do 10 (store_step Hm a mp bs).
  rewrite header_end_eq.
  destruct (Z.leb_spec 80 (m_len mp)); [|lia].
  destruct (Z.leb_spec 80 (Z.of_nat (length bs))); [|lia].
  reflexivity.
Qed.

Lemma take_poke_before (k n off : nat) (v : Z) (bs : list byte) :
  (k <= off)%nat -> (off <= length bs)%nat ->
  take k (poke n off v bs) = take k bs.
Proof.
  intros H Hl. unfold poke, splice.
  rewrite take_app_le by (rewrite length_take; lia).
  rewrite take_take. f_equal. lia.
Qed.

Ltac read_field :=
  first [ rewrite field_poke_same by lia
        | rewrite field_poke_other by lia ].

(** What [mountHeader] leaves in the bytes of an image that can hold the
    header: the length is unchanged, the length word is untouched, and each
    header field holds the value stored last. *)
Lemma mount_bytes_fields (req : ufsHeaderSizeRequestStruct) (bs : list byte) :
  (80 <= length bs)%nat ->
  let bs' := mount_bytes req bs in
  length bs' = length bs /\
  take 8 bs' = take 8 bs /\
  hdr_magicNumber bs' = UFS_MAGIC_NUMBER /\
  hdr_version bs' = UFS_INDEX_VERSION /\
  hdr_sizes 0 bs' = wrap64 (numFiles req) /\
  hdr_sizes 1 bs' = wrap64 (numAreas req) /\
  hdr_sizes 2 bs' = wrap64 (numNodes req) /\
  hdr_sizes 3 bs' = wrap64 (numStrBytes req) /\
  (hdr_offsets 0 bs', hdr_offsets 1 bs', hdr_offsets 2 bs', hdr_offsets 3 bs')
  = (let '(o_file, o_area, o_node, o_string) := table_offsets req in
     (wrap64 o_file, wrap64 o_area, wrap64 o_node, wrap64 o_string)).
Proof.
  intros Hl bs'. subst bs'. unfold mount_bytes.
  destruct (table_offsets req) as [[[o_file o_area] o_node] o_string].
  set (b1 := poke 4 8 UFS_MAGIC_NUMBER bs).
  assert (L1 : length b1 = length bs) by (apply length_poke; lia).
  set (b2 := poke 4 12 UFS_INDEX_VERSION b1).
  assert (L2 : length b2 = length bs) by (unfold b2; rewrite length_poke; lia).
  set (b3 := poke 8 16 (numFiles req) b2).
  assert (L3 : length b3 = length bs) by (unfold b3; rewrite length_poke; lia).
  set (b4 := poke 8 24 (numAreas req) b3).
  assert (L4 : length b4 = length bs) by (unfold b4; rewrite length_poke; lia).
  set (b5 := poke 8 32 (numNodes req) b4).
  assert (L5 : length b5 = length bs) by (unfold b5; rewrite length_poke; lia).
  set (b6 := poke 8 40 (numStrBytes req) b5).
  assert (L6 : length b6 = length bs) by (unfold b6; rewrite length_poke; lia).
  set (b7 := poke 8 48 o_file b6).
  assert (L7 : length b7 = length bs) by (unfold b7; rewrite length_poke; lia).
  set (b8 := poke 8 56 o_area b7).
  assert (L8 : length b8 = length bs) by (unfold b8; rewrite length_poke; lia).
  set (b9 := poke 8 64 o_node b8).
  assert (L9 : length b9 = length bs) by (unfold b9; rewrite length_poke; lia).
  set (bs' := poke 8 72 o_string b9).
  assert (L10 : length bs' = length bs)
    by (unfold bs'; rewrite length_poke; lia).
  split; [exact L10|]. split.
  { unfold bs'; rewrite take_poke_before by lia.
    unfold b9; rewrite take_poke_before by lia.
    unfold b8; rewrite take_poke_before by lia.
    unfold b7; rewrite take_poke_before by lia.
    unfold b6; rewrite take_poke_before by lia.
    unfold b5; rewrite take_poke_before by lia.
    unfold b4; rewrite take_poke_before by lia.
    unfold b3; rewrite take_poke_before by lia.
    unfold b2; rewrite take_poke_before by lia.
    unfold b1; rewrite take_poke_before by lia. reflexivity. }
  unfold hdr_magicNumber, hdr_version, hdr_sizes, hdr_offsets, wrap64.
  cbn [Nat.add Nat.mul].
  repeat split; repeat f_equal.
  all: try unfold bs'; try read_field.
  all: try unfold b9; try read_field.
  all: try unfold b8; try read_field.
  all: try unfold b7; try read_field.
  all: try unfold b6; try read_field.
  all: try unfold b5; try read_field.
  all: try unfold b4; try read_field.
  all: try unfold b3; try read_field.
  all: try unfold b2; try read_field.
  all: try unfold b1; try read_field.
  all: reflexivity.
Qed.

(** ** [ufsImageCreate] when every system call succeeds *)

(** The bytes of a created image: the old contents cut or zero-extended to
    [size] bytes, then the length word. *)
Definition created_bytes (size : Z) (old : list byte) : list byte :=
  poke 8 0 size (resize (Z.to_nat size) Byte.x00 old).

Definition created_world (p : string) (size : Z) (a : addr) (w : World)
  : World :=
  {| files := <[p := created_bytes size (default [] (files w !! p))]> (files w);
     maps := <[a := {| m_path := p; m_len := size |}]> (maps w);
     ufsErrno := UFS_NO_ERROR;
     sc_pagesize := sc_pagesize w;
     trace := trace w ++ [EvOpen p true; EvFtruncate p size; EvMmap p size;
                          EvClose p] |}.

Lemma ufsImageCreate_eval (p : string) (size : Z) (s : Sys) (w : World) :
  8 <= size -> r_open s = None -> r_ftruncate s = true -> r_mmap s = true ->
  ufsImageCreate (Some p) size s w
  = Ret (Some (fresh (dom (maps w))))
        (created_world p size (fresh (dom (maps w))) w).
Proof.
  intros Hs Ho Ht Hm. run. unfold sizeof_uint64.
  destruct (Z.ltb_spec size 8); [lia|]. rewrite Ho.
  assert (Hlen : 0 + Z.of_nat 8 <= Z.of_nat (length
            (resize (Z.to_nat size) Byte.x00 (default [] (files w !! p)))))
    by (rewrite length_resize; lia).
  destruct (files w !! p) as [old|] eqn:Hf; cbn.
  - rewrite Hf, Ht. cbn. rewrite Hm.
    erewrite store_ok;
      [|cbn; apply lookup_insert_eq|cbn; apply lookup_insert_eq
       |cbn; lia..|exact Hlen].
    unfold created_world, set_ufsErrno, set_files, log, set_maps. cbn.
    rewrite Hf. cbn. rewrite insert_insert_eq, <- !app_assoc. reflexivity.
  - rewrite lookup_insert_eq, Ht. cbn. rewrite Hm.
    erewrite store_ok;
      [|cbn; apply lookup_insert_eq|cbn; apply lookup_insert_eq
       |cbn; lia..|exact Hlen].
    unfold created_world, set_ufsErrno, set_files, log, set_maps. cbn.
    rewrite Hf. cbn. rewrite !insert_insert_eq, <- !app_assoc. reflexivity.
Qed.

Lemma ufsImageCreate_some (path : option string) (size : Z) (s : Sys)
    (w w' : World) (a : addr) :
  ufsImageCreate path size s w = Ret (Some a) w' ->
  exists p, path = Some p /\ 8 <= size /\ r_open s = None /\
            r_ftruncate s = true /\ r_mmap s = true.
Proof.
  destruct path as [p|]; [|discriminate].
  run. unfold sizeof_uint64.
  destruct (Z.ltb_spec size 8); [discriminate|].
  destruct (r_open s) as [[]|]; [discriminate..|].
  intros H1. exists p. repeat split; try assumption.
  - destruct (r_ftruncate s) eqn:Ht; [reflexivity|]. exfalso.
    revert H1. cbn.
    destruct (files w !! p) eqn:Hf; cbn; rewrite ?lookup_insert_eq, ?Hf; cbn;
      discriminate.
  - destruct (r_mmap s) eqn:Hm; [reflexivity|]. exfalso.
    revert H1. cbn.
    destruct (files w !! p) eqn:Hf; cbn; rewrite ?lookup_insert_eq, ?Hf;
      cbn; destruct (r_ftruncate s); cbn; discriminate.
Qed.

Lemma created_bytes_length (size : Z) (old : list byte) :
  8 <= size -> Z.of_nat (length (created_bytes size old)) = size.
Proof.
  intros H. unfold created_bytes.
  rewrite length_poke by (rewrite length_resize; lia).
  rewrite length_resize. lia.
Qed.

Lemma created_bytes_word (size : Z) (old : list byte) :
  8 <= size -> take 8 (created_bytes size old) = le_split 8 size.
Proof.
  intros H. unfold created_bytes, poke.
  apply (read_splice_same 0 8); [now rewrite length_le_split|lia].
Qed.

(** ** [ufsHeaderInit] when every system call succeeds *)

Definition init_world (p : string) (req : ufsHeaderSizeRequestStruct)
    (w : World) : World :=
  let size := resolveSize (wrap64 (sc_pagesize w)) req in
  with_bytes p (mount_bytes req (created_bytes size []))
    (created_world p size (fresh (dom (maps w))) (log (EvAccess p) w)).

Definition all_positive (req : ufsHeaderSizeRequestStruct) : Prop :=
  0 < numFiles req /\ 0 < numAreas req /\ 0 < numNodes req /\
  0 < numStrBytes req.

Lemma capacities_nonzero (req : ufsHeaderSizeRequestStruct) :
  numFiles req <> 0 -> numAreas req <> 0 -> numNodes req <> 0 ->
  numStrBytes req <> 0 ->
  (numFiles req =? 0) || (numAreas req =? 0) || (numNodes req =? 0)
  || (numStrBytes req =? 0) = false.
Proof.
  intros. repeat (apply orb_false_intro); now apply Z.eqb_neq.
Qed.

Lemma init_world_mapped (p : string) (req : ufsHeaderSizeRequestStruct)
    (w : World) :
  files w !! p = None ->
  header_end <= resolveSize (wrap64 (sc_pagesize w)) req ->
  header_mapped (init_world p req w) (fresh (dom (maps w)))
    (mount_bytes req
       (created_bytes (resolveSize (wrap64 (sc_pagesize w)) req) [])).
Proof.
  intros Hf Hs. rewrite header_end_eq in *.
  exists {| m_path := p; m_len := resolveSize (wrap64 (sc_pagesize w)) req |}.
  unfold init_world, with_bytes, created_world, set_files.
  cbn [files maps m_path m_len log].
  rewrite !lookup_insert_eq.
  pose proof (created_bytes_length
                (resolveSize (wrap64 (sc_pagesize w)) req) []
                ltac:(lia)) as Hl.
  destruct (mount_bytes_fields req
              (created_bytes (resolveSize (wrap64 (sc_pagesize w)) req) []))
    as [Hlen _]; [lia|].
  rewrite Hlen, !header_end_eq. repeat split; lia.
Qed.

Lemma ufsHeaderInit_eval (p : string) (req : ufsHeaderSizeRequestStruct)
    (s : Sys) (w : World) :
  numFiles req <> 0 -> numAreas req <> 0 -> numNodes req <> 0 ->
  numStrBytes req <> 0 ->
  files w !! p = None ->
  header_end <= resolveSize (wrap64 (sc_pagesize w)) req ->
  r_open s = None -> r_ftruncate s = true -> r_mmap s = true ->
  ufsHeaderInit (Some p) req s w
  = Ret (Some (fresh (dom (maps w)))) (init_world p req w).
Proof.
  intros H1 H2 H3 H4 Hf Hs Ho Ht Hm.
  pose proof (init_world_mapped p req w Hf Hs) as Hh.
  rewrite header_end_eq in Hs.
  unfold ufsHeaderInit, bind, sys_access, sysconf_SC_PAGESIZE.
  rewrite capacities_nonzero by assumption.
  rewrite (access_not_found _ _ Hf).
  cbn [sc_pagesize log].
  rewrite ufsImageCreate_eval by (assumption || lia).
  cbn [maps log].
  set (size := resolveSize (wrap64 (sc_pagesize w)) req) in *.
  set (a := fresh (dom (maps w))) in *.
  rewrite (mountHeader_eval _ a {| m_path := p; m_len := size |}
             (created_bytes size []));
    [|apply lookup_insert_eq
     |cbn; rewrite Hf; apply lookup_insert_eq].
  cbn [m_len m_path]. rewrite created_bytes_length, header_end_eq by lia.
  destruct (Z.leb_spec 80 size); [|lia]. cbn [andb].
  change (with_bytes p (mount_bytes req (created_bytes size []))
            (created_world p size a (log (EvAccess p) w)))
    with (init_world p req w).
  rewrite (ufsHeaderValidate_eval _ _ _ Hh).
  destruct (mount_bytes_fields req (created_bytes size []))
    as (_ & _ & -> & -> & _).
  { pose proof (created_bytes_length size [] ltac:(lia)). lia. }
  reflexivity.
Qed.

Lemma ufsHeaderInit_some (path : option string)
    (req : ufsHeaderSizeRequestStruct) (s : Sys) (w w' : World) (a : addr) :
  ufsHeaderInit path req s w = Ret (Some a) w' ->
  exists p,
    path = Some p /\ files w !! p = None /\
    header_end <= resolveSize (wrap64 (sc_pagesize w)) req /\
    a = fresh (dom (maps w)) /\ w' = init_world p req w.
Proof.
  intros H. destruct path as [p|]; [|discriminate]. exists p.
  assert (Hc : numFiles req <> 0 /\ numAreas req <> 0 /\ numNodes req <> 0 /\
               numStrBytes req <> 0 /\ files w !! p = None /\
               r_open s = None /\ r_ftruncate s = true /\ r_mmap s = true /\
               header_end <= resolveSize (wrap64 (sc_pagesize w)) req).
  { revert H.
    unfold ufsHeaderInit, bind, sys_access, sysconf_SC_PAGESIZE.
    destruct ((numFiles req =? 0) || (numAreas req =? 0) ||
              (numNodes req =? 0) || (numStrBytes req =? 0)) eqn:Hz;
      [discriminate|].
    apply orb_false_elim in Hz as [Hz H4].
    apply orb_false_elim in Hz as [Hz H3].
    apply orb_false_elim in Hz as [H1 H2].
    apply Z.eqb_neq in H1, H2, H3, H4.
    destruct (bool_decide_reflect (is_Some (files w !! p))) as [Hf|Hf];
      [discriminate|].
    apply eq_None_not_Some in Hf. cbn [sc_pagesize log].
    destruct (ufsImageCreate _ _ _ _) as [[a0|] w1|] eqn:Ec;
      [|discriminate..].
    destruct (ufsImageCreate_some _ _ _ _ _ _ Ec)
      as (q & _ & Hs & Ho & Ht & Hm).
    rewrite ufsImageCreate_eval in Ec by assumption.
    injection Ec as <- <-.
    set (size := resolveSize (wrap64 (sc_pagesize w)) req) in *.
    rewrite (mountHeader_eval _ _ {| m_path := p; m_len := size |}
               (created_bytes size []));
      [|apply lookup_insert_eq
       |cbn; rewrite Hf; apply lookup_insert_eq].
    cbn [m_len m_path].
    destruct (Z.leb_spec header_end size); [|discriminate].
    intros _. repeat split; assumption. }
  destruct Hc as (H1 & H2 & H3 & H4 & Hf & Ho & Ht & Hm & Hs).
  rewrite ufsHeaderInit_eval in H by assumption.
  injection H as <- <-. repeat split; assumption.
Qed.

(** ** Rounding *)

Lemma wrap64_range (z : Z) : 0 <= wrap64 z < 2 ^ 64.
Proof. unfold wrap64. apply Z.mod_pos_bound. lia. Qed.

Lemma wrap64_small (z : Z) : 0 <= z < 2 ^ 64 -> wrap64 z = z.
Proof. intros H. unfold wrap64. now apply Z.mod_small. Qed.

Lemma land_wrap64 (x y : Z) : 0 <= x < 2 ^ 64 -> Z.land x (wrap64 y) = Z.land x y.
Proof.
  intros H. unfold wrap64. rewrite <- (Z.land_ones y 64) by lia.
  rewrite (Z.land_comm y), Z.land_assoc, Z.land_ones by lia.
  now rewrite Z.mod_small.
Qed.

Lemma roundToBoundary_range (v a : Z) : 0 <= roundToBoundary v a < 2 ^ 64.
Proof.
  unfold roundToBoundary.
  pose proof (wrap64_range (v + wrap64 (a - 1))) as Hx.
  set (x := wrap64 (v + wrap64 (a - 1))) in *.
  set (y := wrap64 (Z.lnot (wrap64 (a - 1)))).
  assert (E : Z.land x y = (Z.land x y) mod 2 ^ 64).
  { rewrite <- (Z.land_ones _ 64) by lia.
    rewrite <- Z.land_assoc, (Z.land_comm y), Z.land_assoc, Z.land_ones by lia.
    now rewrite (Z.mod_small x). }
  rewrite E. apply Z.mod_pos_bound. lia.
Qed.

Lemma resolveSize_range (pageSize : Z) (req : ufsHeaderSizeRequestStruct) :
  0 <= resolveSize pageSize req < 2 ^ 64.
Proof. unfold resolveSize. apply roundToBoundary_range. Qed.

(** For a power of two, the bit mask rounds the wrapped sum down to a
    multiple of the alignment. *)
Lemma roundToBoundary_pow2 (v k : Z) :
  0 <= k < 64 ->
  roundToBoundary v (2 ^ k) = wrap64 (v + (2 ^ k - 1)) / 2 ^ k * 2 ^ k.
Proof.
  intros Hk. unfold roundToBoundary.
  assert (Hp : 0 < 2 ^ k <= 2 ^ 63).
  { split; [apply Z.pow_pos_nonneg; lia|].
    apply Z.pow_le_mono_r; lia. }
  rewrite (wrap64_small (2 ^ k - 1)) by lia.
  rewrite land_wrap64 by apply wrap64_range.
  replace (2 ^ k - 1) with (Z.ones k) by (rewrite Z.ones_equiv; lia).
  rewrite <- Z.ldiff_land, Z.ldiff_ones_r by lia.
  rewrite Z.shiftr_div_pow2, Z.shiftl_mul_pow2 by lia.
  replace (Z.ones k) with (2 ^ k - 1) by (rewrite Z.ones_equiv; lia).
  reflexivity.
Qed.

(** ** C4: the length word is the length of the file *)

(** C4. When [ufsImageCreate] returns an image, the backing file has
    exactly [size] bytes, the image maps all of them, and the 64-bit word
    read at offset 0 of the image is that length.  When [ufsHeaderInit]
    returns an image, the word read at offset 0 of the image is again the
    length of its backing file. *)
Theorem length_word_is_file_length :
  (forall path size s w a w',
     0 <= size < 2 ^ 64 ->
     ufsImageCreate path size s w = Ret (Some a) w' ->
     exists p bs,
       path = Some p /\
       maps w' !! a = Some {| m_path := p; m_len := size |} /\
       files w' !! p = Some bs /\
       Z.of_nat (length bs) = size /\
       load64 (image_ptr (Some a)) w' = Ret (Z.of_nat (length bs)) w') /\
  (forall path req s w a w',
     ufsHeaderInit path req s w = Ret (Some a) w' ->
     exists mp bs,
       maps w' !! a = Some mp /\
       files w' !! m_path mp = Some bs /\
       m_len mp = Z.of_nat (length bs) /\
       load64 (image_ptr (Some a)) w' = Ret (Z.of_nat (length bs)) w').
Proof.
  split.
  - intros path size s w a w' Hr H.
    destruct (ufsImageCreate_some _ _ _ _ _ _ H)
      as (p & -> & Hs & Ho & Ht & Hm).
    rewrite ufsImageCreate_eval in H by assumption.
    injection H as <- <-.
    exists p, (created_bytes size (default [] (files w !! p))).
    pose proof (created_bytes_length size (default [] (files w !! p)) Hs) as Hl.
    assert (Hmap : maps (created_world p size (fresh (dom (maps w))) w)
                   !! fresh (dom (maps w))
                   = Some {| m_path := p; m_len := size |})
      by apply lookup_insert_eq.
    assert (Hfile : files (created_world p size (fresh (dom (maps w))) w) !! p
                    = Some (created_bytes size (default [] (files w !! p))))
      by apply lookup_insert_eq.
    repeat split; try assumption.
    unfold load64, image_ptr.
    erewrite load_ok; [|exact Hmap|exact Hfile|cbn; lia..].
    change (Z.to_nat 0) with 0%nat. rewrite drop_0.
    rewrite created_bytes_word, le_combine_split, Hl by assumption.
    rewrite Z.mod_small by lia. reflexivity.
  - intros path req s w a w' H.
    destruct (ufsHeaderInit_some _ _ _ _ _ _ H) as (p & -> & Hf & Hs & -> & ->).
    set (size := resolveSize (wrap64 (sc_pagesize w)) req) in *.
    pose proof (resolveSize_range (wrap64 (sc_pagesize w)) req) as Hr.
    fold size in Hr. rewrite header_end_eq in Hs.
    pose proof (created_bytes_length size [] ltac:(lia)) as Hl.
    destruct (mount_bytes_fields req (created_bytes size []))
      as (Hlen & Hword & _); [lia|].
    exists {| m_path := p; m_len := size |},
           (mount_bytes req (created_bytes size [])).
    assert (Hmap : maps (init_world p req w) !! fresh (dom (maps w))
                   = Some {| m_path := p; m_len := size |})
      by apply lookup_insert_eq.
    assert (Hfile : files (init_world p req w) !! p
                    = Some (mount_bytes req (created_bytes size [])))
      by apply lookup_insert_eq.
    repeat split; try assumption.
    + cbn [m_len]. rewrite Hlen. lia.
    + unfold load64, image_ptr.
      erewrite load_ok; [|exact Hmap|exact Hfile|cbn [m_len]; lia..].
      change (Z.to_nat 0) with 0%nat. rewrite drop_0.
      rewrite Hword, created_bytes_word, le_combine_split, Hlen, Hl by lia.
      rewrite Z.mod_small by lia. reflexivity.
Qed.

(** [ufsImageCreate(path, 128)] as in [test_ufs_image_create_default_size],
    and scenario 1. *)
Lemma length_word_is_file_length_witness :
  (exists p bs,
     Some "img"%string = Some p /\
     maps (world_after (ufsImageCreate (Some "img"%string) 128 sys_ok empty_world))
       !! 1%positive = Some {| m_path := p; m_len := 128 |} /\
     files (world_after (ufsImageCreate (Some "img"%string) 128 sys_ok empty_world))
       !! p = Some bs /\
     Z.of_nat (length bs) = 128 /\
     load64 (image_ptr (Some 1%positive))
       (world_after (ufsImageCreate (Some "img"%string) 128 sys_ok empty_world))
     = Ret (Z.of_nat (length bs))
         (world_after (ufsImageCreate (Some "img"%string) 128 sys_ok empty_world))) /\
  (exists mp bs,
     maps fresh_image !! 1%positive = Some mp /\
     files fresh_image !! m_path mp = Some bs /\
     m_len mp = Z.of_nat (length bs) /\
     load64 (image_ptr (Some 1%positive)) fresh_image
     = Ret (Z.of_nat (length bs)) fresh_image).
Proof.
  split.
  - apply (proj1 length_word_is_file_length (Some "img"%string) 128 sys_ok
             empty_world); [lia|by_computation].
  - apply (proj2 length_word_is_file_length (Some "/tmp/img"%string)
             small_request sys_ok empty_world). by_computation.
Defined.

(** ** The layout in unbounded arithmetic *)

(** Aligning [v] up to a multiple of [a]. *)
Definition align_up (v a : Z) : Z := (v + (a - 1)) / a * a.

(** The image length as the specification words it: start at 8, align up
    to the header and add its size, then for each table in order align up
    to its element and add element size times capacity, and round up to
    the page size; all in unbounded integers. *)
Definition spec_image_length (pageSize : Z) (req : ufsHeaderSizeRequestStruct)
  : Z :=
  let size := sizeof_uint64 in
  let size := align_up size alignof_ufsHeaderStruct + sizeof_ufsHeaderStruct in
  let size := align_up size alignof_ufsFileStruct
              + sizeof_ufsFileStruct * numFiles req in
  let size := align_up size alignof_ufsAreaStruct
              + sizeof_ufsAreaStruct * numAreas req in
  let size := align_up size alignof_ufsNodeStruct
              + sizeof_ufsNodeStruct * numNodes req in
  let size := align_up size alignof_char + sizeof_char * numStrBytes req in
  align_up size pageSize.

(** The end of the last table, in unbounded integers. *)
Definition tables_end (req : ufsHeaderSizeRequestStruct) : Z :=
  80 + 16 * numFiles req + 16 * numAreas req + 48 * numNodes req
  + numStrBytes req.

Lemma align_up_bounds (v a : Z) :
  0 < a -> v <= align_up v a < v + a /\ align_up v a mod a = 0.
Proof.
  intros Ha. unfold align_up.
  pose proof (Z.div_mod (v + (a - 1)) a ltac:(lia)) as E.
  pose proof (Z.mod_pos_bound (v + (a - 1)) a Ha) as B.
  rewrite Z.mod_mul by lia. nia.
Qed.

Lemma align_up_8 (m : Z) : align_up (8 * m) 8 = 8 * m.
Proof. unfold align_up. Z.div_mod_to_equations. lia. Qed.

Lemma align_up_1 (v : Z) : align_up v 1 = v.
Proof. unfold align_up. rewrite Z.div_1_r. lia. Qed.

Lemma spec_image_length_eq (pageSize : Z) (req : ufsHeaderSizeRequestStruct) :
  spec_image_length pageSize req = align_up (tables_end req) pageSize.
Proof.
  unfold spec_image_length, tables_end, sizeof_uint64,
    alignof_ufsHeaderStruct, sizeof_ufsHeaderStruct, alignof_ufsFileStruct,
    sizeof_ufsFileStruct, alignof_ufsAreaStruct, sizeof_ufsAreaStruct,
    alignof_ufsNodeStruct, sizeof_ufsNodeStruct, alignof_char, sizeof_char.
  cbv zeta.
  change 8 with (8 * 1) at 1. rewrite align_up_8.
  replace (8 * 1 + 72) with (8 * 10) by lia. rewrite align_up_8.
  replace (8 * 10 + 16 * numFiles req) with (8 * (10 + 2 * numFiles req))
    by lia.
  rewrite align_up_8.
  replace (8 * (10 + 2 * numFiles req) + 16 * numAreas req)
    with (8 * (10 + 2 * numFiles req + 2 * numAreas req)) by lia.
  rewrite align_up_8.
  replace (8 * (10 + 2 * numFiles req + 2 * numAreas req) + 48 * numNodes req)
    with (8 * (10 + 2 * numFiles req + 2 * numAreas req + 6 * numNodes req))
    by lia.
  rewrite align_up_1. f_equal. lia.
Qed.

Lemma roundToBoundary_8 (m : Z) :
  0 <= m -> 8 * m + 7 < 2 ^ 64 -> roundToBoundary (8 * m) 8 = 8 * m.
Proof.
  intros H0 H1. change 8 with (2 ^ 3) at 2.
  rewrite roundToBoundary_pow2 by lia.
  rewrite wrap64_small by lia. change (2 ^ 3) with 8.
  Z.div_mod_to_equations. lia.
Qed.

Lemma roundToBoundary_1 (v : Z) :
  0 <= v < 2 ^ 64 -> roundToBoundary v 1 = v.
Proof.
  intros H. change 1 with (2 ^ 0) at 1.
  rewrite roundToBoundary_pow2 by lia.
  change (2 ^ 0) with 1. rewrite Z.div_1_r, Z.sub_diag, Z.add_0_r, Z.mul_1_r.
  now apply wrap64_small.
Qed.

Lemma roundToBoundary_exact (v k : Z) :
  0 <= k < 64 -> 0 <= v -> align_up v (2 ^ k) < 2 ^ 64 ->
  roundToBoundary v (2 ^ k) = align_up v (2 ^ k).
Proof.
  intros Hk Hv Hb. rewrite roundToBoundary_pow2 by assumption.
  unfold align_up in *.
  assert (Hp : 0 < 2 ^ k) by (apply Z.pow_pos_nonneg; lia).
  assert (E : 2 ^ 64 = 2 ^ (64 - k) * 2 ^ k)
    by (rewrite <- Z.pow_add_r by lia; f_equal; lia).
  assert (Hlt : v + (2 ^ k - 1) < 2 ^ 64).
  { destruct (Z_lt_le_dec (v + (2 ^ k - 1)) (2 ^ 64)) as [|Hge]; [assumption|].
    exfalso.
    pose proof (Z.div_le_mono _ _ (2 ^ k) Hp Hge) as Hd.
    rewrite E in Hd at 1. rewrite Z.div_mul in Hd by lia.
    nia. }
  now rewrite wrap64_small by lia.
Qed.

(** When the unbounded length fits in 64 bits, the code computes it
    exactly, and the tables follow one another inside it. *)
Lemma layout_exact (k : Z) (req : ufsHeaderSizeRequestStruct) :
  0 <= k < 64 ->
  0 <= numFiles req -> 0 <= numAreas req -> 0 <= numNodes req ->
  0 <= numStrBytes req ->
  spec_image_length (2 ^ k) req < 2 ^ 64 ->
  table_offsets req
  = (80, 80 + 16 * numFiles req,
     80 + 16 * numFiles req + 16 * numAreas req,
     80 + 16 * numFiles req + 16 * numAreas req + 48 * numNodes req) /\
  resolveSize (2 ^ k) req = spec_image_length (2 ^ k) req /\
  tables_end req <= resolveSize (2 ^ k) req /\
  resolveSize (2 ^ k) req mod 2 ^ k = 0.
Proof.
  intros Hk Hf Ha Hn Hs Hb.
  assert (Hp : 0 < 2 ^ k) by (apply Z.pow_pos_nonneg; lia).
  rewrite spec_image_length_eq in *.
  destruct (align_up_bounds (tables_end req) (2 ^ k) Hp) as [Hr Hm].
  unfold tables_end in *.
  unfold table_offsets, resolveSize, sizeof_uint64,
    alignof_ufsHeaderStruct, sizeof_ufsHeaderStruct, alignof_ufsFileStruct,
    sizeof_ufsFileStruct, alignof_ufsAreaStruct, sizeof_ufsAreaStruct,
    alignof_ufsNodeStruct, sizeof_ufsNodeStruct, alignof_char, sizeof_char.
  cbv zeta.
  change (roundToBoundary (wrap64 (roundToBoundary 8 8 + 72)) 8) with 80.
  rewrite (wrap64_small (16 * numFiles req)) by lia.
  rewrite (wrap64_small (80 + 16 * numFiles req)) by lia.
  replace (80 + 16 * numFiles req) with (8 * (10 + 2 * numFiles req)) by lia.
  rewrite roundToBoundary_8 by lia.
  rewrite (wrap64_small (16 * numAreas req)) by lia.
  rewrite (wrap64_small (_ + 16 * numAreas req)) by lia.
  replace (8 * (10 + 2 * numFiles req) + 16 * numAreas req)
    with (8 * (10 + 2 * numFiles req + 2 * numAreas req)) by lia.
  rewrite roundToBoundary_8 by lia.
  rewrite (wrap64_small (48 * numNodes req)) by lia.
  rewrite (wrap64_small (_ + 48 * numNodes req)) by lia.
  rewrite roundToBoundary_1 by lia.
  rewrite (wrap64_small (1 * numStrBytes req)) by lia.
  rewrite (wrap64_small (_ + 1 * numStrBytes req)) by lia.
  replace (8 * (10 + 2 * numFiles req + 2 * numAreas req) + 48 * numNodes req
           + 1 * numStrBytes req)
    with (80 + 16 * numFiles req + 16 * numAreas req + 48 * numNodes req
          + numStrBytes req) by lia.
  rewrite roundToBoundary_exact by (assumption || lia).
  repeat split; try assumption; try lia.
  repeat f_equal; lia.
Qed.

(** ** C1: header round trip *)

(** C1 fails on the code as stated.  On the unwritable path of
    [test_ufs_image_create_cant_create_file], where no file exists,
    [ufsHeaderInit] with the default (all positive) request returns null
    with [UFS_CANT_CREATE_FILE]: errors of [ufsImageCreate] are passed on.
    And even when every system call would succeed, a request whose byte
    count wraps around to 0 is rejected with [UFS_BAD_CALL]. *)
Lemma header_round_trip_counterexample :
  (all_positive ufsDefaultSizeRequest /\
   request_in_range ufsDefaultSizeRequest /\
   files empty_world !! "/cant_create_here"%string = None /\
   exists w',
     ufsHeaderInit (Some "/cant_create_here"%string) ufsDefaultSizeRequest
       (sys_fail_open EACCES) empty_world = Ret NULL w' /\
     ufsErrno w' = UFS_CANT_CREATE_FILE) /\
  (let req := {| numFiles := 1; numAreas := 1; numNodes := 1;
                 numStrBytes := 2 ^ 64 - 160 |} in
   all_positive req /\ request_in_range req /\
   files empty_world !! "/tmp/img"%string = None /\
   exists w',
     ufsHeaderInit (Some "/tmp/img"%string) req sys_ok empty_world
     = Ret NULL w' /\
     ufsErrno w' = UFS_BAD_CALL /\ files w' = files empty_world).
Proof.
  split.
  - repeat split; try (cbn; lia).
    eexists. split; by_computation.
  - repeat split; try (cbn; lia).
    eexists. repeat split; by_computation.
Qed.

(** C1, as the code has it.  Take a request with four positive capacities
    whose unbounded image length fits in 64 bits, a page size that is a
    power of two, and a path at which no file exists.  If [open],
    [ftruncate] and [mmap] succeed in [ufsHeaderInit], it returns an image;
    if then [open], [fstat] and [mmap] succeed in [ufsImageOpen], it
    returns an image of the same file whose bytes are exactly those
    [ufsHeaderInit] left (the overwritten length word included), whose
    header read through [ufsHeaderGet] has [sizes[]] equal to the four
    requested capacities, and which [ufsHeaderValidate] returns unchanged. *)
Theorem header_round_trip (p : string) (req : ufsHeaderSizeRequestStruct)
    (s1 s2 : Sys) (w : World) (k : Z) :
  request_in_range req -> all_positive req ->
  files w !! p = None ->
  0 <= k < 64 -> sc_pagesize w = 2 ^ k ->
  spec_image_length (2 ^ k) req < 2 ^ 64 ->
  r_open s1 = None -> r_ftruncate s1 = true -> r_mmap s1 = true ->
  r_open s2 = None -> r_fstat s2 = true -> r_mmap s2 = true ->
  exists a w1 b w2,
    ufsHeaderInit (Some p) req s1 w = Ret (Some a) w1 /\
    ufsImageOpen (Some p) s2 w1 = Ret (Some b) w2 /\
    files w2 = files w1 /\
    load64 (sizes (ufsHeaderGet (Some b)) UFS_TYPES_FILE) w2
    = Ret (numFiles req) w2 /\
    load64 (sizes (ufsHeaderGet (Some b)) UFS_TYPES_AREA) w2
    = Ret (numAreas req) w2 /\
    load64 (sizes (ufsHeaderGet (Some b)) UFS_TYPES_NODE) w2
    = Ret (numNodes req) w2 /\
    load64 (sizes (ufsHeaderGet (Some b)) UFS_TYPES_STRING) w2
    = Ret (numStrBytes req) w2 /\
    ufsHeaderValidate (Some b) w2 = Ret (Some b) w2.
Proof.
  intros (Rf & Ra & Rn & Rs) (Pf & Pa & Pn & Ps) Hf Hk Hpage Hfit
         Ho1 Ht1 Hm1 Ho2 Hs2 Hm2.
  assert (Hp : 0 < 2 ^ k <= 2 ^ 63).
  { split; [apply Z.pow_pos_nonneg; lia|apply Z.pow_le_mono_r; lia]. }
  destruct (layout_exact k req) as (_ & Hsize & Hend & _);
    try assumption; try lia.
  unfold tables_end in Hend.
  pose proof (resolveSize_range (2 ^ k) req) as Hrange.
  assert (Hws : resolveSize (wrap64 (sc_pagesize w)) req
                = resolveSize (2 ^ k) req)
    by (rewrite Hpage, wrap64_small by lia; reflexivity).
  assert (Hinit : ufsHeaderInit (Some p) req s1 w
                  = Ret (Some (fresh (dom (maps w)))) (init_world p req w)).
  { apply ufsHeaderInit_eval; try assumption; try lia.
    rewrite Hws, header_end_eq. lia. }
  assert (Hfile1 : files (init_world p req w) !! p
                   = Some (mount_bytes req
                             (created_bytes (resolveSize (2 ^ k) req) []))).
  { unfold init_world. rewrite Hws. apply lookup_insert_eq. }
  pose proof (created_bytes_length (resolveSize (2 ^ k) req) [] ltac:(lia))
    as Hcl.
  pose proof (created_bytes_word (resolveSize (2 ^ k) req) [] ltac:(lia))
    as Hcw.
  destruct (mount_bytes_fields req (created_bytes (resolveSize (2 ^ k) req) []))
    as (Hlen & Hword & Hmagic & Hvers & S0 & S1 & S2 & S3 & _); [lia|].
  rewrite Hcw in Hword. rewrite <- Hlen in Hcl. clear Hlen Hcw Hws Hsize Hfit.
  remember (resolveSize (2 ^ k) req) as size eqn:Esize.
  remember (mount_bytes req (created_bytes size [])) as bs1 eqn:Ebs1.
  remember (init_world p req w) as w1 eqn:Ew1.
  clear Esize Ebs1 Ew1.
  destruct (ufsImageOpen_success p s2 w1 bs1)
    as (w2 & Hopen & _ & Hmaps2 & Hfiles2); try assumption; [lia|].
  assert (Hsame : files w2 = files w1).
  { rewrite Hfiles2. apply insert_id. rewrite Hfile1. f_equal.
    transitivity (take 8 bs1 ++ drop 8 bs1); [symmetry; apply take_drop|].
    f_equal. rewrite Hword. f_equal. lia. }
  remember (fresh (dom (maps w1))) as b eqn:Eb. clear Eb.
  assert (Hmap2 : maps w2 !! b
                  = Some {| m_path := p; m_len := Z.of_nat (length bs1) |})
    by (rewrite Hmaps2; apply lookup_insert_eq).
  assert (Hfile2 : files w2 !! p = Some bs1) by (rewrite Hsame; exact Hfile1).
  assert (Hh : header_mapped w2 b bs1).
  { eexists. rewrite header_end_eq. repeat split; [exact Hmap2|exact Hfile2|..];
      cbn [m_len]; lia. }
  exists (fresh (dom (maps w))), w1, b, w2.
  split; [exact Hinit|].
  split; [exact Hopen|]. split; [exact Hsame|].
  unfold wrap64 in S0, S1, S2, S3.
  rewrite Z.mod_small in S0, S1, S2, S3 by lia.
  repeat split.
  1-4: run; erewrite load_ok;
    [|exact Hmap2|exact Hfile2|cbn [m_len]; field_bounds..].
  - now rewrite <- S0.
  - now rewrite <- S1.
  - now rewrite <- S2.
  - now rewrite <- S3.
  - rewrite (ufsHeaderValidate_eval _ _ _ Hh), Hmagic, Hvers. reflexivity.
Qed.

(** Scenario 1 followed by [ufsImageOpen], with 4096-byte pages. *)
Lemma header_round_trip_witness :
  exists a w1 b w2,
    ufsHeaderInit (Some "/tmp/img"%string) small_request sys_ok empty_world
    = Ret (Some a) w1 /\
    ufsImageOpen (Some "/tmp/img"%string) sys_ok w1 = Ret (Some b) w2 /\
    files w2 = files w1 /\
    load64 (sizes (ufsHeaderGet (Some b)) UFS_TYPES_FILE) w2
    = Ret (numFiles small_request) w2 /\
    load64 (sizes (ufsHeaderGet (Some b)) UFS_TYPES_AREA) w2
    = Ret (numAreas small_request) w2 /\
    load64 (sizes (ufsHeaderGet (Some b)) UFS_TYPES_NODE) w2
    = Ret (numNodes small_request) w2 /\
    load64 (sizes (ufsHeaderGet (Some b)) UFS_TYPES_STRING) w2
    = Ret (numStrBytes small_request) w2 /\
    ufsHeaderValidate (Some b) w2 = Ret (Some b) w2.
Proof.
  apply (header_round_trip "/tmp/img" small_request sys_ok sys_ok
           empty_world 12); try reflexivity.
  all: repeat split; by_computation.
Defined.

(** ** C3: the computed image length *)

(** A request for [2^60] files, one area, one node and one string byte. *)
Definition huge_request : ufsHeaderSizeRequestStruct :=
  {| numFiles := 2 ^ 60; numAreas := 1; numNodes := 1; numStrBytes := 1 |}.

(** C3 at a failing input.  All four capacities of [huge_request] are
    positive 64-bit values.  With 4096-byte pages the unbounded computation
    gives [2^64 + 4096] bytes, but [resolveSize] gives [4096], because
    [sizeof(struct ufsFileStruct) * numFiles] wraps around to 0.
    [ufsHeaderInit] then succeeds with a file of 4096 bytes whose header
    records [2^60] files and puts the Files and the Areas table at the same
    offset 80. *)
Theorem resolveSize_wraps_around :
  all_positive huge_request /\ request_in_range huge_request /\
  spec_image_length 4096 huge_request = 2 ^ 64 + 4096 /\
  resolveSize 4096 huge_request = 4096 /\
  table_offsets huge_request = (80, 80, 96, 144) /\
  exists w' bs,
    ufsHeaderInit (Some "/tmp/img"%string) huge_request sys_ok empty_world
    = Ret image1 w' /\
    files w' !! "/tmp/img"%string = Some bs /\
    length bs = 4096%nat /\
    hdr_sizes 0 bs = 2 ^ 60 /\
    hdr_offsets 0 bs = 80 /\ hdr_offsets 1 bs = 80.
Proof.
  split; [unfold all_positive, huge_request; cbn; lia|].
  split; [unfold request_in_range, huge_request; cbn; lia|].
  split; [by_computation|]. split; [by_computation|].
  split; [by_computation|].
  exists (world_after (ufsHeaderInit (Some "/tmp/img"%string) huge_request
                         sys_ok empty_world)),
         (image_bytes
            (world_after (ufsHeaderInit (Some "/tmp/img"%string) huge_request
                            sys_ok empty_world)) 1%positive).
  split; [by_computation|]. split; [by_computation|].
  split; [by_computation|]. split; [by_computation|].
  split; by_computation.
Qed.

(** ** C5: the status word *)

(** The status word after a call, if the call returns. *)
Definition status_after {A} (o : Outcome A) : option Z :=
  match o with Ret _ w => Some (ufsErrno w) | Fault => None end.

(** The call returns from every world, and the status word it leaves does
    not depend on the status word it found: it assigned it. *)
Definition sets_status {A} (c : M A) : Prop :=
  forall w e, exists st,
    status_after (c w) = Some st /\
    status_after (c (set_ufsErrno e w)) = Some st.

(** C5 fails on the code as stated.  After a failed call has left
    [UFS_BAD_CALL], [ufsHeaderValidate] accepts a valid image and
    [ufsImageSync] flushes it, and both leave [UFS_BAD_CALL] in the status
    word instead of [UFS_NO_ERROR]. *)
Lemma status_word_counterexample :
  let w := set_ufsErrno UFS_BAD_CALL fresh_image in
  ufsHeaderValidate image1 w = Ret image1 w /\
  (exists w', ufsImageSync image1 sys_ok w = Ret true w' /\
              ufsErrno w' = UFS_BAD_CALL) /\
  ufsErrno w = UFS_BAD_CALL /\ UFS_BAD_CALL <> UFS_NO_ERROR.
Proof.
  split; [by_computation|]. split; [|split; by_computation].
  eexists. split; by_computation.
Qed.

Lemma ufsImageOpen_some (path : option string) (s : Sys) (w w' : World)
    (a : addr) :
  ufsImageOpen path s w = Ret (Some a) w' -> ufsErrno w' = UFS_NO_ERROR.
Proof.
  destruct path as [p|]; [|discriminate]. run.
  destruct (bool_decide (is_Some (files w !! p))); cbn; [|discriminate].
  destruct (r_open s); [discriminate|].
  destruct (files w !! p) as [bs|] eqn:Hf; cbn; [|discriminate].
  rewrite Hf. destruct (r_fstat s); [|discriminate].
  destruct (_ <? sizeof_uint64); [discriminate|].
  destruct (r_mmap s); [|discriminate].
  destruct (store 8 _ _ _) as [u w2|]; [|discriminate].
  now intros [= _ <-].
Qed.

Lemma ufsImageOpen_sets_status (path : option string) (s : Sys) :
  sets_status (ufsImageOpen path s).
Proof.
  intros w e. destruct path as [p|]; [|eexists; split; reflexivity]. run.
  destruct (bool_decide (is_Some (files w !! p))); cbn;
    [|eexists; split; reflexivity].
  destruct (r_open s); [eexists; split; reflexivity|].
  destruct (files w !! p) as [bs|] eqn:Hf; cbn;
    [|eexists; split; reflexivity].
  rewrite Hf. destruct (r_fstat s); [|eexists; split; reflexivity].
  unfold sizeof_uint64.
  destruct (Z.ltb_spec (Z.of_nat (length bs)) 8);
    [eexists; split; reflexivity|].
  destruct (r_mmap s); [|eexists; split; reflexivity].
  erewrite store_ok;
    [|cbn; apply lookup_insert_eq|cbn; exact Hf|cbn; lia..].
  erewrite store_ok;
    [|cbn; apply lookup_insert_eq|cbn; exact Hf|cbn; lia..].
  eexists; split; reflexivity.
Qed.

Lemma ufsImageCreate_sets_status (path : option string) (size : Z) (s : Sys) :
  path = None \/ size < 8 \/ is_Some (r_open s) \/ r_ftruncate s = true ->
  sets_status (ufsImageCreate path size s).
Proof.
  intros Hc w e. destruct path as [p|]; [|eexists; split; reflexivity]. run.
  unfold sizeof_uint64.
  destruct (Z.ltb_spec size 8); [eexists; split; reflexivity|].
  destruct (r_open s) as [[]|] eqn:Ho; [eexists; split; reflexivity..|].
  assert (Ht : r_ftruncate s = true).
  { destruct Hc as [Hc|[Hc|[[x Hc]|Hc]]];
      [discriminate|lia|discriminate|assumption]. }
  assert (Hlen : forall old, 0 + Z.of_nat 8 <= Z.of_nat (length
            (resize (Z.to_nat size) Byte.x00 old)))
    by (intros old; rewrite length_resize; lia).
  destruct (files w !! p) as [old|] eqn:Hf;
    repeat (progress (cbn; rewrite ?lookup_insert_eq, ?Hf, ?Ht));
    (destruct (r_mmap s); [|eexists; split; reflexivity]).
  - erewrite store_ok;
      [|cbn; apply lookup_insert_eq|cbn; apply lookup_insert_eq
       |cbn; lia..|apply Hlen].
    erewrite store_ok;
      [|cbn; apply lookup_insert_eq|cbn; apply lookup_insert_eq
       |cbn; lia..|apply Hlen].
    eexists; split; reflexivity.
  - erewrite store_ok;
      [|cbn; apply lookup_insert_eq|cbn; apply lookup_insert_eq
       |cbn; lia..|apply Hlen].
    erewrite store_ok;
      [|cbn; apply lookup_insert_eq|cbn; apply lookup_insert_eq
       |cbn; lia..|apply Hlen].
    eexists; split; reflexivity.
Qed.

Lemma ufsImageSync_ret (img : ufsImagePtr) (s : Sys) (w w' : World) (r : bool) :
  ufsImageSync img s w = Ret r w' ->
  exists a, img = Some a /\ r = r_msync s /\ files w' = files w /\
            maps w' = maps w /\
            ufsErrno w' = if r then ufsErrno w else UFS_IMAGE_COULD_NOT_SYNC.
Proof.
  run. unfold bind.
  destruct (load 8 _ w) as [size w1|] eqn:E1; [|discriminate].
  pose proof (load_frame _ _ _ _ _ E1) as ->.
  destruct img as [a|]; [|discriminate E1].
  destruct (r_msync s); cbn; intros [= <- <-]; exists a; repeat split.
Qed.

Lemma ufsImageFree_ret (img : ufsImagePtr) (w w' : World) :
  ufsImageFree img w = Ret tt w' ->
  files w' = files w /\ ufsErrno w' = ufsErrno w.
Proof.
  run. unfold bind.
  destruct (load 8 _ w) as [size w1|] eqn:E1; [|discriminate].
  pose proof (load_frame _ _ _ _ _ E1) as ->.
  destruct img as [a|]; [|discriminate E1].
  destruct (0 <? size); intros [= <-]; split; reflexivity.
Qed.

(** C5, as the code has it.  [ufsImageOpen] assigns the status word on
    every path, and [ufsImageCreate] on every path but the one where
    [ftruncate] fails; both leave [UFS_NO_ERROR] when they return an
    image, and so does [ufsHeaderInit].  [ufsImageSync] and
    [ufsHeaderValidate] assign the status word only when they fail
    ([UFS_IMAGE_COULD_NOT_SYNC]; [UFS_IMAGE_IS_CORRUPTED] or
    [UFS_VERSION_MISMATCH]) and leave it as they found it when they
    succeed; [ufsImageFree] never assigns it. *)
Theorem status_word_discipline :
  (forall path s, sets_status (ufsImageOpen path s)) /\
  (forall path s w a w',
     ufsImageOpen path s w = Ret (Some a) w' -> ufsErrno w' = UFS_NO_ERROR) /\
  (forall path size s,
     path = None \/ size < 8 \/ is_Some (r_open s) \/ r_ftruncate s = true ->
     sets_status (ufsImageCreate path size s)) /\
  (forall path size s w a w',
     ufsImageCreate path size s w = Ret (Some a) w' ->
     ufsErrno w' = UFS_NO_ERROR) /\
  (forall path req s w a w',
     ufsHeaderInit path req s w = Ret (Some a) w' ->
     ufsErrno w' = UFS_NO_ERROR) /\
  (forall img s w r w',
     ufsImageSync img s w = Ret r w' ->
     ufsErrno w' = if r then ufsErrno w else UFS_IMAGE_COULD_NOT_SYNC) /\
  (forall img w w',
     ufsImageFree img w = Ret tt w' -> ufsErrno w' = ufsErrno w) /\
  (forall img w r w',
     ufsHeaderValidate img w = Ret r w' ->
     (r = img /\ ufsErrno w' = ufsErrno w) \/
     (r = NULL /\ (ufsErrno w' = UFS_IMAGE_IS_CORRUPTED \/
                   ufsErrno w' = UFS_VERSION_MISMATCH))).
Proof.
  repeat apply conj.
  - apply ufsImageOpen_sets_status.
  - intros path s w a w'. apply ufsImageOpen_some.
  - apply ufsImageCreate_sets_status.
  - intros path size s w a w' H.
    destruct (ufsImageCreate_some _ _ _ _ _ _ H)
      as (p & -> & Hs & Ho & Ht & Hm).
    rewrite ufsImageCreate_eval in H by assumption.
    now injection H as <- <-.
  - intros path req s w a w' H.
    destruct (ufsHeaderInit_some _ _ _ _ _ _ H) as (p & _ & _ & _ & _ & ->).
    reflexivity.
  - intros img s w r w' H.
    destruct (ufsImageSync_ret _ _ _ _ _ H) as (a & _ & _ & _ & _ & E).
    exact E.
  - intros img w w' H. now destruct (ufsImageFree_ret _ _ _ H).
  - intros img w r w' H.
    apply ufsHeaderValidate_ret in H as [[-> ->]|[-> [->| ->]]];
      [left|right|right]; split; auto.
Qed.

(** A 128-byte image, as in [test_ufs_image_create_default_size]. *)
Definition created_image : World :=
  world_after (ufsImageCreate (Some "img"%string) 128 sys_ok empty_world).
Definition opened_image : World :=
  world_after (ufsImageOpen (Some "img"%string) sys_ok
                 (file_world "img" (replicate 128 Byte.x00))).
Definition stale_status : World := set_ufsErrno UFS_BAD_CALL fresh_image.

Lemma status_word_discipline_witness :
  sets_status (ufsImageCreate (Some "img"%string) 128 sys_ok) /\
  ufsErrno opened_image = UFS_NO_ERROR /\
  ufsErrno created_image = UFS_NO_ERROR /\
  ufsErrno fresh_image = UFS_NO_ERROR /\
  ufsErrno (world_after (ufsImageSync image1 sys_ok stale_status))
  = ufsErrno stale_status /\
  ufsErrno (world_after (ufsImageFree image1 stale_status))
  = ufsErrno stale_status /\
  ((image1 = image1 /\ ufsErrno stale_status = ufsErrno stale_status) \/
   (image1 = NULL /\ (ufsErrno stale_status = UFS_IMAGE_IS_CORRUPTED \/
                      ufsErrno stale_status = UFS_VERSION_MISMATCH))).
Proof.
  destruct status_word_discipline
    as (_ & Hopen & Hsets & Hcreate & Hinit & Hsync & Hfree & Hvalid).
  split; [|split; [|split; [|split; [|split; [|split]]]]].
  - apply Hsets. right. right. right. reflexivity.
  - apply (Hopen (Some "img"%string) sys_ok
             (file_world "img" (replicate 128 Byte.x00)) 1%positive).
    by_computation.
  - apply (Hcreate (Some "img"%string) 128 sys_ok empty_world 1%positive).
    by_computation.
  - apply (Hinit (Some "/tmp/img"%string) small_request sys_ok empty_world
             1%positive).
    by_computation.
  - apply (Hsync image1 sys_ok stale_status true). by_computation.
  - apply (Hfree image1 stale_status). by_computation.
  - apply (Hvalid image1 stale_status image1 stale_status). by_computation.
Defined.

(** * Further properties of the image and header layers *)

(** ** Rounding and layout *)

(** [roundToBoundary] rounds up: for a power-of-two alignment, when
    [val + align - 1] does not overflow 64 bits, the result is the least
    multiple of [align] that is at least [val]; in particular an aligned
    value is returned as it is. *)
Theorem roundToBoundary_rounds_up (v k : Z) :
  0 <= k < 64 -> 0 <= v -> v + (2 ^ k - 1) < 2 ^ 64 ->
  v <= roundToBoundary v (2 ^ k) < v + 2 ^ k /\
  roundToBoundary v (2 ^ k) mod 2 ^ k = 0 /\
  (forall m, v <= m -> m mod 2 ^ k = 0 -> roundToBoundary v (2 ^ k) <= m) /\
  (v mod 2 ^ k = 0 -> roundToBoundary v (2 ^ k) = v).
Proof.
  intros Hk Hv Hb.
  assert (Hp : 0 < 2 ^ k) by (apply Z.pow_pos_nonneg; lia).
  rewrite roundToBoundary_pow2, wrap64_small by lia.
  fold (align_up v (2 ^ k)).
  destruct (align_up_bounds v (2 ^ k) Hp) as [Hr Hm].
  repeat split; try lia; try assumption.
  - intros m Hvm Hmm.
    apply Z.mod_divide in Hmm as [q ->]; [|lia].
    apply Z.mod_divide in Hm as [q' Hq']; [|lia].
    rewrite Hq' in *.
    assert (q' < q + 1) by (apply (Z.mul_lt_mono_pos_r (2 ^ k)); lia).
    apply Z.mul_le_mono_nonneg_r; lia.
  - intros Hvk.
    apply Z.mod_divide in Hvk as [q Hq]; [|lia].
    apply Z.mod_divide in Hm as [q' Hq']; [|lia].
    rewrite Hq' in *. subst v.
    assert (q' < q + 1) by (apply (Z.mul_lt_mono_pos_r (2 ^ k)); lia).
    assert (q <= q') by (apply (Z.mul_le_mono_pos_r _ _ (2 ^ k)); lia).
    f_equal. lia.
Qed.

Lemma roundToBoundary_rounds_up_witness :
  81 <= roundToBoundary 81 (2 ^ 3) < 81 + 2 ^ 3 /\
  roundToBoundary 81 (2 ^ 3) mod 2 ^ 3 = 0 /\
  (forall m, 81 <= m -> m mod 2 ^ 3 = 0 -> roundToBoundary 81 (2 ^ 3) <= m) /\
  (81 mod 2 ^ 3 = 0 -> roundToBoundary 81 (2 ^ 3) = 81).
Proof. apply (roundToBoundary_rounds_up 81 3); lia. Defined.

Lemma roundToBoundary_multiple (v k : Z) :
  0 <= k < 64 -> roundToBoundary v (2 ^ k) mod 2 ^ k = 0.
Proof.
  intros Hk. rewrite roundToBoundary_pow2 by assumption.
  apply Z.mod_mul. apply Z.pow_nonzero; lia.
Qed.

(** Whatever the request, even one whose byte count wraps around, the
    length [resolveSize] computes for a power-of-two page size is a 64-bit
    multiple of the page size, and so is the length of the file behind
    every image [ufsHeaderInit] returns. *)
Theorem image_length_page_multiple (k : Z) :
  0 <= k < 64 ->
  (forall req,
     0 <= resolveSize (2 ^ k) req < 2 ^ 64 /\
     resolveSize (2 ^ k) req mod 2 ^ k = 0) /\
  (forall path req s w a w',
     sc_pagesize w = 2 ^ k ->
     ufsHeaderInit path req s w = Ret (Some a) w' ->
     exists mp bs,
       maps w' !! a = Some mp /\ files w' !! m_path mp = Some bs /\
       m_len mp = Z.of_nat (length bs) /\
       Z.of_nat (length bs) mod 2 ^ k = 0).
Proof.
  intros Hk. split.
  - intros req. split; [apply resolveSize_range|].
    unfold resolveSize. now apply roundToBoundary_multiple.
  - intros path req s w a w' Hpage H.
    assert (Hp : 0 < 2 ^ k <= 2 ^ 63).
    { split; [apply Z.pow_pos_nonneg; lia|apply Z.pow_le_mono_r; lia]. }
    destruct (ufsHeaderInit_some _ _ _ _ _ _ H) as (p & -> & Hf & Hs & -> & ->).
    rewrite Hpage, wrap64_small, header_end_eq in Hs by lia.
    pose proof (created_bytes_length (resolveSize (2 ^ k) req) [] ltac:(lia))
      as Hl.
    destruct (mount_bytes_fields req
                (created_bytes (resolveSize (2 ^ k) req) []))
      as (Hlen & _); [lia|].
    exists {| m_path := p; m_len := resolveSize (2 ^ k) req |},
           (mount_bytes req (created_bytes (resolveSize (2 ^ k) req) [])).
    unfold init_world. rewrite Hpage, wrap64_small by lia.
    split; [apply lookup_insert_eq|]. split; [apply lookup_insert_eq|].
    cbn [m_len]. rewrite Hlen, Hl. split; [reflexivity|].
    unfold resolveSize. now apply roundToBoundary_multiple.
Qed.

Lemma image_length_page_multiple_witness :
  exists mp bs,
    maps fresh_image !! 1%positive = Some mp /\
    files fresh_image !! m_path mp = Some bs /\
    m_len mp = Z.of_nat (length bs) /\
    Z.of_nat (length bs) mod 2 ^ 12 = 0.
Proof.
  apply (proj2 (image_length_page_multiple 12 ltac:(lia))
           (Some "/tmp/img"%string) small_request sys_ok empty_world);
    by_computation.
Defined.

(** For a request with non-negative capacities whose unbounded length fits
    in 64 bits, [resolveSize] is exactly that length, and the offsets
    [mountHeader] computes put the header and the four tables one after
    the other, in the order Files, Areas, Nodes, Strings, without overlap
    and inside the computed length. *)
Theorem tables_inside_image (k : Z) (req : ufsHeaderSizeRequestStruct) :
  0 <= k < 64 ->
  0 <= numFiles req -> 0 <= numAreas req -> 0 <= numNodes req ->
  0 <= numStrBytes req ->
  spec_image_length (2 ^ k) req < 2 ^ 64 ->
  resolveSize (2 ^ k) req = spec_image_length (2 ^ k) req /\
  let '(o_file, o_area, o_node, o_string) := table_offsets req in
  header_end <= o_file /\
  o_file + sizeof_ufsFileStruct * numFiles req <= o_area /\
  o_area + sizeof_ufsAreaStruct * numAreas req <= o_node /\
  o_node + sizeof_ufsNodeStruct * numNodes req <= o_string /\
  o_string + sizeof_char * numStrBytes req <= resolveSize (2 ^ k) req /\
  o_file mod alignof_ufsFileStruct = 0 /\
  o_area mod alignof_ufsAreaStruct = 0 /\
  o_node mod alignof_ufsNodeStruct = 0.
Proof.
  intros Hk Hf Ha Hn Hs Hb.
  destruct (layout_exact k req) as (-> & Hsize & Hend & _); try assumption.
  split; [assumption|].
  unfold tables_end in Hend. rewrite header_end_eq.
  unfold sizeof_ufsFileStruct, sizeof_ufsAreaStruct, sizeof_ufsNodeStruct,
    sizeof_char, alignof_ufsFileStruct, alignof_ufsAreaStruct,
    alignof_ufsNodeStruct.
  repeat split; try lia.
  all: Z.div_mod_to_equations; lia.
Qed.

Lemma tables_inside_image_witness :
  resolveSize (2 ^ 12) ufsDefaultSizeRequest
  = spec_image_length (2 ^ 12) ufsDefaultSizeRequest /\
  let '(o_file, o_area, o_node, o_string) :=
    table_offsets ufsDefaultSizeRequest in
  header_end <= o_file /\
  o_file + sizeof_ufsFileStruct * numFiles ufsDefaultSizeRequest <= o_area /\
  o_area + sizeof_ufsAreaStruct * numAreas ufsDefaultSizeRequest <= o_node /\
  o_node + sizeof_ufsNodeStruct * numNodes ufsDefaultSizeRequest <= o_string /\
  o_string + sizeof_char * numStrBytes ufsDefaultSizeRequest
  <= resolveSize (2 ^ 12) ufsDefaultSizeRequest /\
  o_file mod alignof_ufsFileStruct = 0 /\
  o_area mod alignof_ufsAreaStruct = 0 /\
  o_node mod alignof_ufsNodeStruct = 0.
Proof.
  apply (tables_inside_image 12 ufsDefaultSizeRequest);
    first [lia | cbn; lia | by_computation].
Defined.

(** Loading the fields of the header of a mapped image. *)
Lemma load_hdr_magicNumber (w : World) (a : addr) (bs : list byte) :
  header_mapped w a bs ->
  load32 (magicNumber (ufsHeaderGet (Some a))) w = Ret (hdr_magicNumber bs) w.
Proof.
  intros (mp & Hm & Hf & Hl & Hb). run.
  erewrite load_ok by (eassumption || field_bounds). reflexivity.
Qed.

Lemma load_hdr_version (w : World) (a : addr) (bs : list byte) :
  header_mapped w a bs ->
  load32 (version (ufsHeaderGet (Some a))) w = Ret (hdr_version bs) w.
Proof.
  intros (mp & Hm & Hf & Hl & Hb). run.
  erewrite load_ok by (eassumption || field_bounds). reflexivity.
Qed.

Lemma load_hdr_sizes (t : nat) (w : World) (a : addr) (bs : list byte) :
  header_mapped w a bs -> (t < 4)%nat ->
  load64 (sizes (ufsHeaderGet (Some a)) (Z.of_nat t)) w
  = Ret (hdr_sizes t bs) w.
Proof.
  intros (mp & Hm & Hf & Hl & Hb) Ht. run.
  rewrite header_end_eq in *. rewrite header_offset. unfold offsetof_sizes.
  erewrite load_ok by (eassumption || lia).
  unfold hdr_sizes, field. do 4 f_equal. lia.
Qed.

Lemma load_hdr_offsets (t : nat) (w : World) (a : addr) (bs : list byte) :
  header_mapped w a bs -> (t < 4)%nat ->
  load64 (offsets (ufsHeaderGet (Some a)) (Z.of_nat t)) w
  = Ret (hdr_offsets t bs) w.
Proof.
  intros (mp & Hm & Hf & Hl & Hb) Ht. run.
  rewrite header_end_eq in *. rewrite header_offset. unfold offsetof_offsets.
  erewrite load_ok by (eassumption || lia).
  unfold hdr_offsets, field. do 4 f_equal. lia.
Qed.

Lemma table_offsets_range (req : ufsHeaderSizeRequestStruct) :
  let '(o_file, o_area, o_node, o_string) := table_offsets req in
  wrap64 o_file = o_file /\ wrap64 o_area = o_area /\
  wrap64 o_node = o_node /\ wrap64 o_string = o_string.
Proof.
  unfold table_offsets. cbv zeta.
  repeat split; apply wrap64_small, roundToBoundary_range.
Qed.

(** The header [ufsHeaderInit] leaves in the image it returns: read through
    [ufsHeaderGet], the magic number and the version are those of this
    client, [sizes[]] holds the four requested capacities and [offsets[]]
    the four offsets computed by [mountHeader]. *)
Theorem ufsHeaderInit_header (path : option string)
    (req : ufsHeaderSizeRequestStruct) (s : Sys) (w w' : World) (a : addr) :
  request_in_range req ->
  ufsHeaderInit path req s w = Ret (Some a) w' ->
  let h := ufsHeaderGet (Some a) in
  load32 (magicNumber h) w' = Ret UFS_MAGIC_NUMBER w' /\
  load32 (version h) w' = Ret UFS_INDEX_VERSION w' /\
  load64 (sizes h UFS_TYPES_FILE) w' = Ret (numFiles req) w' /\
  load64 (sizes h UFS_TYPES_AREA) w' = Ret (numAreas req) w' /\
  load64 (sizes h UFS_TYPES_NODE) w' = Ret (numNodes req) w' /\
  load64 (sizes h UFS_TYPES_STRING) w' = Ret (numStrBytes req) w' /\
  (let '(o_file, o_area, o_node, o_string) := table_offsets req in
   load64 (offsets h UFS_TYPES_FILE) w' = Ret o_file w' /\
   load64 (offsets h UFS_TYPES_AREA) w' = Ret o_area w' /\
   load64 (offsets h UFS_TYPES_NODE) w' = Ret o_node w' /\
   load64 (offsets h UFS_TYPES_STRING) w' = Ret o_string w').
Proof.
  intros (Rf & Ra & Rn & Rs) H.
  destruct (ufsHeaderInit_some _ _ _ _ _ _ H) as (p & -> & Hf & Hs & -> & ->).
  clear H. rewrite header_end_eq in Hs.
  pose proof (created_bytes_length
                (resolveSize (wrap64 (sc_pagesize w)) req) [] ltac:(lia)) as Hl.
  destruct (mount_bytes_fields req
              (created_bytes (resolveSize (wrap64 (sc_pagesize w)) req) []))
    as (Hlen & _ & Hmagic & Hvers & S0 & S1 & S2 & S3 & Hoff); [lia|].
  assert (Hmap : maps (init_world p req w) !! fresh (dom (maps w))
                 = Some {| m_path := p;
                           m_len := resolveSize (wrap64 (sc_pagesize w)) req |})
    by apply lookup_insert_eq.
  assert (Hfile : files (init_world p req w) !! p
                  = Some (mount_bytes req
                            (created_bytes
                               (resolveSize (wrap64 (sc_pagesize w)) req) [])))
    by apply lookup_insert_eq.
  rewrite <- Hlen in Hl. clear Hlen.
  pose proof (table_offsets_range req) as Hrange.
  destruct (table_offsets req) as [[[o_file o_area] o_node] o_string].
  destruct Hrange as (R0 & R1 & R2 & R3).
  injection Hoff as O0 O1 O2 O3. rewrite R0 in O0. rewrite R1 in O1.
  rewrite R2 in O2. rewrite R3 in O3.
  rewrite (wrap64_small (numFiles req)) in S0 by lia.
  rewrite (wrap64_small (numAreas req)) in S1 by lia.
  rewrite (wrap64_small (numNodes req)) in S2 by lia.
  rewrite (wrap64_small (numStrBytes req)) in S3 by lia.
  remember (resolveSize (wrap64 (sc_pagesize w)) req) as size eqn:Esize.
  remember (mount_bytes req (created_bytes size [])) as bs eqn:Ebs.
  remember (init_world p req w) as w1 eqn:Ew1.
  remember (fresh (dom (maps w))) as a eqn:Ea.
  clear Esize Ebs Ew1 Ea.
  assert (Hh : header_mapped w1 a bs).
  { eexists. rewrite header_end_eq.
    repeat split; [exact Hmap|exact Hfile|..]; cbn [m_len]; lia. }
  cbv zeta.
  change UFS_TYPES_FILE with (Z.of_nat 0).
  change UFS_TYPES_AREA with (Z.of_nat 1).
  change UFS_TYPES_NODE with (Z.of_nat 2).
  change UFS_TYPES_STRING with (Z.of_nat 3).
  rewrite (load_hdr_magicNumber _ _ _ Hh), (load_hdr_version _ _ _ Hh).
  rewrite !(load_hdr_sizes _ _ _ _ Hh) by lia.
  rewrite !(load_hdr_offsets _ _ _ _ Hh) by lia.
  rewrite Hmagic, Hvers, S0, S1, S2, S3, O0, O1, O2, O3.
  repeat split.
Qed.

(** On the image of scenario 1. *)
Lemma ufsHeaderInit_header_witness :
  let h := ufsHeaderGet image1 in
  load32 (magicNumber h) fresh_image = Ret UFS_MAGIC_NUMBER fresh_image /\
  load32 (version h) fresh_image = Ret UFS_INDEX_VERSION fresh_image /\
  load64 (sizes h UFS_TYPES_FILE) fresh_image = Ret 1 fresh_image /\
  load64 (sizes h UFS_TYPES_AREA) fresh_image = Ret 1 fresh_image /\
  load64 (sizes h UFS_TYPES_NODE) fresh_image = Ret 1 fresh_image /\
  load64 (sizes h UFS_TYPES_STRING) fresh_image = Ret 64 fresh_image /\
  (let '(o_file, o_area, o_node, o_string) := table_offsets small_request in
   load64 (offsets h UFS_TYPES_FILE) fresh_image = Ret o_file fresh_image /\
   load64 (offsets h UFS_TYPES_AREA) fresh_image = Ret o_area fresh_image /\
   load64 (offsets h UFS_TYPES_NODE) fresh_image = Ret o_node fresh_image /\
   load64 (offsets h UFS_TYPES_STRING) fresh_image = Ret o_string fresh_image).
Proof.
  apply (ufsHeaderInit_header (Some "/tmp/img"%string) small_request
           sys_ok empty_world fresh_image 1%positive).
  - unfold request_in_range, small_request. cbn. lia.
  - by_computation.
Defined.

(** ** What the stores leave untouched *)

Lemma drop_poke_after (k n off : nat) (v : Z) (bs : list byte) :
  (off + n <= k)%nat -> (off + n <= length bs)%nat ->
  drop k (poke n off v bs) = drop k bs.
Proof.
  intros H Hl. unfold poke, splice. rewrite app_assoc.
  rewrite drop_app_ge
    by (rewrite length_app, length_take, length_le_split; lia).
  rewrite drop_drop. f_equal.
  rewrite length_app, length_take, !length_le_split. lia.
Qed.

Lemma mount_bytes_frame (req : ufsHeaderSizeRequestStruct) (bs : list byte) :
  (80 <= length bs)%nat -> drop 80 (mount_bytes req bs) = drop 80 bs.
Proof.
  intros Hl. unfold mount_bytes.
  destruct (table_offsets req) as [[[o_file o_area] o_node] o_string].
  set (b1 := poke 4 8 UFS_MAGIC_NUMBER bs).
  assert (L1 : length b1 = length bs) by (apply length_poke; lia).
  set (b2 := poke 4 12 UFS_INDEX_VERSION b1).
  assert (L2 : length b2 = length bs) by (unfold b2; rewrite length_poke; lia).
  set (b3 := poke 8 16 (numFiles req) b2).
  assert (L3 : length b3 = length bs) by (unfold b3; rewrite length_poke; lia).
  set (b4 := poke 8 24 (numAreas req) b3).
  assert (L4 : length b4 = length bs) by (unfold b4; rewrite length_poke; lia).
  set (b5 := poke 8 32 (numNodes req) b4).
  assert (L5 : length b5 = length bs) by (unfold b5; rewrite length_poke; lia).
  set (b6 := poke 8 40 (numStrBytes req) b5).
  assert (L6 : length b6 = length bs) by (unfold b6; rewrite length_poke; lia).
  set (b7 := poke 8 48 o_file b6).
  assert (L7 : length b7 = length bs) by (unfold b7; rewrite length_poke; lia).
  set (b8 := poke 8 56 o_area b7).
  assert (L8 : length b8 = length bs) by (unfold b8; rewrite length_poke; lia).
  set (b9 := poke 8 64 o_node b8).
  assert (L9 : length b9 = length bs) by (unfold b9; rewrite length_poke; lia).
  rewrite drop_poke_after by lia.
  unfold b9; rewrite drop_poke_after by lia.
  unfold b8; rewrite drop_poke_after by lia.
  unfold b7; rewrite drop_poke_after by lia.
  unfold b6; rewrite drop_poke_after by lia.
  unfold b5; rewrite drop_poke_after by lia.
  unfold b4; rewrite drop_poke_after by lia.
  unfold b3; rewrite drop_poke_after by lia.
  unfold b2; rewrite drop_poke_after by lia.
  unfold b1; rewrite drop_poke_after by lia. reflexivity.
Qed.

(** [mountHeader] on a live image: when the 80 bytes that end with the
    header are inside the mapped extent and the file, it returns the image
    and has written nothing but bytes 8 to 79 of the backing file (the
    length word, every byte from offset 80 on, the file length, the
    mappings, the status word and the trace are as before); otherwise one
    of its stores falls outside the image, which is undefined behaviour in
    C and a fault here. *)
Theorem mountHeader_writes_header_only (w : World) (a : addr) (mp : Mapping)
    (bs : list byte) (req : ufsHeaderSizeRequestStruct) :
  maps w !! a = Some mp -> files w !! m_path mp = Some bs ->
  (header_end <= m_len mp /\ header_end <= Z.of_nat (length bs) ->
   exists w' bs',
     mountHeader (Some a) req w = Ret (Some a) w' /\
     files w' = <[m_path mp := bs']> (files w) /\
     length bs' = length bs /\
     take 8 bs' = take 8 bs /\ drop 80 bs' = drop 80 bs /\
     maps w' = maps w /\ ufsErrno w' = ufsErrno w /\ trace w' = trace w) /\
  (~ (header_end <= m_len mp /\ header_end <= Z.of_nat (length bs)) ->
   mountHeader (Some a) req w = Fault).
Proof.
  intros Hm Hf. rewrite (mountHeader_eval _ _ _ _ _ Hm Hf).
  rewrite header_end_eq. split.
  - intros [H1 H2].
    destruct (Z.leb_spec 80 (m_len mp)); [|lia].
    destruct (Z.leb_spec 80 (Z.of_nat (length bs))); [|lia]. cbn [andb].
    destruct (mount_bytes_fields req bs) as (Hlen & Hword & _); [lia|].
    exists (with_bytes (m_path mp) (mount_bytes req bs) w), (mount_bytes req bs).
    repeat split; try assumption. apply mount_bytes_frame. lia.
  - intros Hn.
    destruct (Z.leb_spec 80 (m_len mp)); [|reflexivity].
    destruct (Z.leb_spec 80 (Z.of_nat (length bs))); [|reflexivity]. lia.
Qed.

(** A 128-byte image can hold the header, a 64-byte image cannot. *)
Lemma mountHeader_writes_header_only_witness :
  (exists w' bs',
     mountHeader image1 small_request created_image = Ret image1 w' /\
     files w' = <["img"%string := bs']> (files created_image) /\
     length bs' = length (image_bytes created_image 1%positive) /\
     take 8 bs' = take 8 (image_bytes created_image 1%positive) /\
     drop 80 bs' = drop 80 (image_bytes created_image 1%positive) /\
     maps w' = maps created_image /\ ufsErrno w' = ufsErrno created_image /\
     trace w' = trace created_image) /\
  mountHeader image1 small_request
    (world_after (ufsImageCreate (Some "img"%string) 64 sys_ok empty_world))
  = Fault.
Proof.
  split.
  - apply (proj1 (mountHeader_writes_header_only created_image 1%positive
                    {| m_path := "img"; m_len := 128 |}
                    (image_bytes created_image 1%positive) small_request
                    ltac:(by_computation) ltac:(by_computation))).
    split; by_computation.
  - apply (proj2 (mountHeader_writes_header_only
                    (world_after (ufsImageCreate (Some "img"%string) 64 sys_ok
                                    empty_world)) 1%positive
                    {| m_path := "img"; m_len := 64 |}
                    (image_bytes
                       (world_after (ufsImageCreate (Some "img"%string) 64
                                       sys_ok empty_world)) 1%positive)
                    small_request
                    ltac:(by_computation) ltac:(by_computation))).
    intros [H _]. revert H. by_computation.
Defined.

(** The image [ufsHeaderInit] returns is blank after the header: every
    byte of the backing file from offset 80 on, where the four tables lie,
    is zero. *)
Theorem ufsHeaderInit_tables_zero (path : option string)
    (req : ufsHeaderSizeRequestStruct) (s : Sys) (w w' : World) (a : addr) :
  ufsHeaderInit path req s w = Ret (Some a) w' ->
  exists mp bs,
    maps w' !! a = Some mp /\ files w' !! m_path mp = Some bs /\
    drop 80 bs = replicate (length bs - 80) Byte.x00.
Proof.
  intros H.
  destruct (ufsHeaderInit_some _ _ _ _ _ _ H) as (p & -> & Hf & Hs & -> & ->).
  rewrite header_end_eq in Hs.
  pose proof (created_bytes_length
                (resolveSize (wrap64 (sc_pagesize w)) req) [] ltac:(lia)) as Hl.
  destruct (mount_bytes_fields req
              (created_bytes (resolveSize (wrap64 (sc_pagesize w)) req) []))
    as (Hlen & _); [lia|].
  exists {| m_path := p; m_len := resolveSize (wrap64 (sc_pagesize w)) req |},
         (mount_bytes req
            (created_bytes (resolveSize (wrap64 (sc_pagesize w)) req) [])).
  split; [apply lookup_insert_eq|]. split; [apply lookup_insert_eq|].
  rewrite mount_bytes_frame, Hlen by lia.
  unfold created_bytes.
  rewrite drop_poke_after by (rewrite ?length_resize; lia).
  rewrite length_poke by (rewrite length_resize; lia).
  rewrite resize_nil, drop_replicate, length_replicate. reflexivity.
Qed.

Lemma ufsHeaderInit_tables_zero_witness :
  exists mp bs,
    maps fresh_image !! 1%positive = Some mp /\
    files fresh_image !! m_path mp = Some bs /\
    drop 80 bs = replicate (length bs - 80) Byte.x00.
Proof.
  apply (ufsHeaderInit_tables_zero (Some "/tmp/img"%string) small_request
           sys_ok empty_world). by_computation.
Defined.

(** ** More on [ufsImageCreate] *)

(** The file behind an image returned by [ufsImageCreate]: its first 8
    bytes are the length word; at a path where no file existed every later
    byte is zero; where a file existed, it is not cleared: its old bytes
    from offset 8 up to the new size are still there ([open] is called
    without [O_TRUNC] and [ftruncate] only cuts or extends).  No other
    file changes. *)
Theorem ufsImageCreate_contents (path : option string) (size : Z) (s : Sys)
    (w w' : World) (a : addr) :
  ufsImageCreate path size s w = Ret (Some a) w' ->
  exists p bs,
    path = Some p /\ files w' !! p = Some bs /\
    take 8 bs = le_split 8 size /\
    (files w !! p = None ->
     drop 8 bs = replicate (Z.to_nat size - 8) Byte.x00) /\
    (forall old i, files w !! p = Some old ->
       (8 <= i)%nat -> (i < length old)%nat -> (i < Z.to_nat size)%nat ->
       bs !! i = old !! i) /\
    (forall q, q <> p -> files w' !! q = files w !! q).
Proof.
  intros H.
  destruct (ufsImageCreate_some _ _ _ _ _ _ H) as (p & -> & Hs & Ho & Ht & Hm).
  rewrite ufsImageCreate_eval in H by assumption. injection H as <- <-.
  exists p, (created_bytes size (default [] (files w !! p))).
  split; [reflexivity|]. split; [apply lookup_insert_eq|].
  split; [now apply created_bytes_word|].
  assert (Hdrop : forall old,
            drop 8 (created_bytes size old)
            = drop 8 (resize (Z.to_nat size) Byte.x00 old)).
  { intros old. unfold created_bytes.
    apply drop_poke_after; [lia|]. rewrite length_resize. lia. }
  split; [|split].
  - intros ->. rewrite Hdrop. cbn [default].
    now rewrite resize_nil, drop_replicate.
  - intros old i -> Hi Ho' Hi'. cbn [default].
    replace i with (8 + (i - 8))%nat by lia.
    rewrite <- !lookup_drop, Hdrop, !lookup_drop.
    apply lookup_resize; lia.
  - intros q Hq. unfold created_world. cbn [files].
    now rewrite lookup_insert_ne.
Qed.

(** A fresh 128-byte image, and one created over a file that held 16
    bytes [0x2a]. *)
Definition stale_file : World := file_world "img" (replicate 16 Byte.x2a).

Lemma ufsImageCreate_contents_witness :
  (exists p bs,
     Some "img"%string = Some p /\ files created_image !! p = Some bs /\
     take 8 bs = le_split 8 128 /\
     (files empty_world !! p = None ->
      drop 8 bs = replicate (Z.to_nat 128 - 8) Byte.x00) /\
     (forall old i, files empty_world !! p = Some old ->
        (8 <= i)%nat -> (i < length old)%nat -> (i < Z.to_nat 128)%nat ->
        bs !! i = old !! i) /\
     (forall q, q <> p -> files created_image !! q = files empty_world !! q)) /\
  (exists p bs,
     Some "img"%string = Some p /\
     files (world_after (ufsImageCreate (Some "img"%string) 128 sys_ok
                           stale_file)) !! p = Some bs /\
     take 8 bs = le_split 8 128 /\
     (files stale_file !! p = None ->
      drop 8 bs = replicate (Z.to_nat 128 - 8) Byte.x00) /\
     (forall old i, files stale_file !! p = Some old ->
        (8 <= i)%nat -> (i < length old)%nat -> (i < Z.to_nat 128)%nat ->
        bs !! i = old !! i) /\
     (forall q, q <> p ->
        files (world_after (ufsImageCreate (Some "img"%string) 128 sys_ok
                              stale_file)) !! q = files stale_file !! q)).
Proof.
  split.
  - apply (ufsImageCreate_contents (Some "img"%string) 128 sys_ok empty_world
             created_image 1%positive). by_computation.
  - apply (ufsImageCreate_contents (Some "img"%string) 128 sys_ok stale_file
             _ 1%positive). by_computation.
Defined.

Lemma ufsImageCreate_late_eval (p : string) (size : Z) (s : Sys)
    (w : World) :
  8 <= size -> r_open s = None ->
  (r_ftruncate s = false ->
   exists w',
     ufsImageCreate (Some p) size s w = Ret NULL w' /\
     ufsErrno w' = ufsErrno w /\ maps w' = maps w /\
     files w' !! p = Some (default [] (files w !! p)) /\
     (forall q, q <> p -> files w' !! q = files w !! q)) /\
  (r_ftruncate s = true -> r_mmap s = false ->
   exists w',
     ufsImageCreate (Some p) size s w = Ret NULL w' /\
     ufsErrno w' = UFS_UNKNOWN_ERROR /\ maps w' = maps w /\
     files w' !! p
     = Some (resize (Z.to_nat size) Byte.x00 (default [] (files w !! p))) /\
     (forall q, q <> p -> files w' !! q = files w !! q)).
Proof.
  intros Hs Ho. split.
  - intros Ht. run. unfold sizeof_uint64.
    destruct (Z.ltb_spec size 8); [lia|]. rewrite Ho.
    destruct (files w !! p) as [old|] eqn:Hf;
      repeat (progress (cbn; rewrite ?lookup_insert_eq, ?Hf, ?Ht));
      eexists; (split; [reflexivity|]); cbn.
    + repeat split; auto.
    + rewrite lookup_insert_eq. repeat split; auto.
      intros q Hq. now rewrite lookup_insert_ne.
  - intros Ht Hm. run. unfold sizeof_uint64.
    destruct (Z.ltb_spec size 8); [lia|]. rewrite Ho.
    destruct (files w !! p) as [old|] eqn:Hf;
      repeat (progress (cbn; rewrite ?lookup_insert_eq, ?Hf, ?Ht, ?Hm));
      eexists; (split; [reflexivity|]); cbn;
      rewrite lookup_insert_eq; repeat split; auto;
      intros q Hq; now rewrite !lookup_insert_ne.
Qed.

(** When [ftruncate] fails, [ufsImageCreate] returns null without touching
    the status word, maps nothing, and leaves behind the file that [open]
    created: empty if there was none, unchanged if there was one.  When
    [mmap] fails, it returns null with [UFS_UNKNOWN_ERROR], maps nothing,
    and leaves the file resized to [size] bytes. *)
Theorem ufsImageCreate_late_failures (p : string) (size : Z) (s : Sys)
    (w : World) :
  8 <= size -> r_open s = None ->
  (r_ftruncate s = false ->
   exists w',
     ufsImageCreate (Some p) size s w = Ret NULL w' /\
     ufsErrno w' = ufsErrno w /\ maps w' = maps w /\
     files w' !! p = Some (default [] (files w !! p)) /\
     (forall q, q <> p -> files w' !! q = files w !! q)) /\
  (r_ftruncate s = true -> r_mmap s = false ->
   exists w',
     ufsImageCreate (Some p) size s w = Ret NULL w' /\
     ufsErrno w' = UFS_UNKNOWN_ERROR /\ maps w' = maps w /\
     files w' !! p
     = Some (resize (Z.to_nat size) Byte.x00 (default [] (files w !! p))) /\
     (forall q, q <> p -> files w' !! q = files w !! q)).
Proof. apply ufsImageCreate_late_eval. Qed.

Definition sys_fail_ftruncate : Sys :=
  {| r_open := None; r_fstat := true; r_ftruncate := false;
     r_mmap := true; r_msync := true |}.
Definition sys_fail_mmap : Sys :=
  {| r_open := None; r_fstat := true; r_ftruncate := true;
     r_mmap := false; r_msync := true |}.

Lemma ufsImageCreate_late_failures_witness :
  (exists w',
     ufsImageCreate (Some "img"%string) 128 sys_fail_ftruncate stale_status
     = Ret NULL w' /\
     ufsErrno w' = ufsErrno stale_status /\ maps w' = maps stale_status /\
     files w' !! "img"%string
     = Some (default [] (files stale_status !! "img"%string)) /\
     (forall q, q <> "img"%string -> files w' !! q = files stale_status !! q)) /\
  (exists w',
     ufsImageCreate (Some "img"%string) 128 sys_fail_mmap empty_world
     = Ret NULL w' /\
     ufsErrno w' = UFS_UNKNOWN_ERROR /\ maps w' = maps empty_world /\
     files w' !! "img"%string
     = Some (resize (Z.to_nat 128) Byte.x00
               (default [] (files empty_world !! "img"%string))) /\
     (forall q, q <> "img"%string -> files w' !! q = files empty_world !! q)).
Proof.
  split.
  - apply (proj1 (ufsImageCreate_late_failures "img" 128 sys_fail_ftruncate
                    stale_status ltac:(lia) eq_refl)). reflexivity.
  - apply (proj2 (ufsImageCreate_late_failures "img" 128 sys_fail_mmap
                    empty_world ltac:(lia) eq_refl)); reflexivity.
Defined.

(** ** [ufsImageSync] and [ufsImageFree] on live images *)

Lemma load_length_word (w : World) (a : addr) (mp : Mapping) (bs : list byte) :
  maps w !! a = Some mp -> files w !! m_path mp = Some bs ->
  8 <= m_len mp -> 8 <= Z.of_nat (length bs) ->
  load 8 {| p_base := Some a; p_off := 0 |} w = Ret (length_word bs) w.
Proof.
  intros Hm Hf Hl Hb. erewrite load_ok by (eassumption || lia). reflexivity.
Qed.


(** [ufsImageSync] has no null check: on a null handle it faults.  On a
    live image whose length word is mapped it passes that word to [msync]
    as the number of bytes to flush, returns true exactly when [msync]
    succeeds, assigns [UFS_IMAGE_COULD_NOT_SYNC] only when it fails, and
    changes no file and no mapping. *)
Theorem ufsImageSync_live (s : Sys) (w : World) :
  ufsImageSync NULL s w = Fault /\
  (forall a mp bs,
     maps w !! a = Some mp -> files w !! m_path mp = Some bs ->
     8 <= m_len mp -> 8 <= Z.of_nat (length bs) ->
     exists w',
       ufsImageSync (Some a) s w = Ret (r_msync s) w' /\
       files w' = files w /\ maps w' = maps w /\
       ufsErrno w'
       = (if r_msync s then ufsErrno w else UFS_IMAGE_COULD_NOT_SYNC) /\
       trace w'
       = trace w ++ EvMsync a (length_word bs)
                      :: (if r_msync s then [] else [EvPerror "msync"])).
Proof.
  split; [reflexivity|].
  intros a mp bs Hm Hf Hl Hb. run.
  rewrite (load_length_word _ _ _ _ Hm Hf Hl Hb).
  destruct (r_msync s); cbn; eexists; repeat split.
  cbn. now rewrite <- app_assoc.
Qed.

Definition sys_fail_msync : Sys :=
  {| r_open := None; r_fstat := true; r_ftruncate := true;
     r_mmap := true; r_msync := false |}.

Lemma ufsImageSync_live_witness :
  exists w',
    ufsImageSync image1 sys_fail_msync created_image = Ret false w' /\
    files w' = files created_image /\ maps w' = maps created_image /\
    ufsErrno w' = UFS_IMAGE_COULD_NOT_SYNC /\
    trace w'
    = trace created_image
      ++ [EvMsync 1%positive
            (length_word (image_bytes created_image 1%positive));
          EvPerror "msync"].
Proof.
  apply (proj2 (ufsImageSync_live sys_fail_msync created_image) 1%positive
           {| m_path := "img"; m_len := 128 |}
           (image_bytes created_image 1%positive));
    by_computation.
Defined.



(** ** More on [ufsImageOpen] *)

Lemma ufsImageOpen_inv (path : option string) (s : Sys) (w w' : World)
    (a : addr) :
  ufsImageOpen path s w = Ret (Some a) w' ->
  exists p bs,
    path = Some p /\ files w !! p = Some bs /\ 8 <= Z.of_nat (length bs) /\
    r_open s = None /\ r_fstat s = true /\ r_mmap s = true.
Proof.
  destruct path as [p|]; [|discriminate]. run.
  destruct (bool_decide (is_Some (files w !! p))); cbn; [|discriminate].
  destruct (r_open s); [discriminate|].
  destruct (files w !! p) as [bs|] eqn:Hf; cbn; [|discriminate].
  rewrite Hf. destruct (r_fstat s); [|discriminate].
  unfold sizeof_uint64.
  destruct (Z.ltb_spec (Z.of_nat (length bs)) 8); [discriminate|].
  destruct (r_mmap s); [|discriminate].
  intros _. exists p, bs. repeat split; assumption.
Qed.

(** The image [ufsImageOpen] returns maps the whole file.  Only the first
    8 bytes of the file may have changed: its length and every byte from
    offset 8 on are as before, and the length word now holds the length of
    the file, whatever was stored there.  If the length word was already
    right (as [ufsImageCreate], [ufsHeaderInit] and [ufsImageOpen] leave
    it), no byte of any file changes. *)
Theorem ufsImageOpen_length_word (path : option string) (s : Sys)
    (w w' : World) (a : addr) :
  ufsImageOpen path s w = Ret (Some a) w' ->
  exists p bs bs',
    path = Some p /\ files w !! p = Some bs /\ files w' !! p = Some bs' /\
    maps w' !! a = Some {| m_path := p; m_len := Z.of_nat (length bs) |} /\
    length bs' = length bs /\ drop 8 bs' = drop 8 bs /\
    (Z.of_nat (length bs) < 2 ^ 64 ->
     length_word bs' = Z.of_nat (length bs)) /\
    (length_word bs = Z.of_nat (length bs) -> files w' = files w) /\
    (forall q, q <> p -> files w' !! q = files w !! q).
Proof.
  intros H.
  destruct (ufsImageOpen_inv _ _ _ _ _ H)
    as (p & bs & -> & Hf & Hlen & Ho & Hs & Hm).
  destruct (ufsImageOpen_success p s w bs Hf Hlen Ho Hs Hm)
    as (w2 & Hopen & _ & Hmaps & Hfiles).
  rewrite Hopen in H. injection H as <- <-.
  exists p, bs, (le_split 8 (Z.of_nat (length bs)) ++ drop 8 bs).
  split; [reflexivity|]. split; [assumption|].
  split; [rewrite Hfiles; apply lookup_insert_eq|].
  split; [rewrite Hmaps; apply lookup_insert_eq|].
  split; [rewrite length_app, length_le_split, length_drop; lia|].
  split; [now rewrite drop_app_length' by (symmetry; apply length_le_split)|].
  split; [|split].
  - intros Hsmall. unfold length_word, field. rewrite drop_0.
    rewrite take_app_length' by (symmetry; apply length_le_split).
    rewrite le_combine_split. apply Z.mod_small. lia.
  - intros Hword. rewrite Hfiles. apply insert_id. rewrite Hf. f_equal.
    transitivity (take 8 bs ++ drop 8 bs); [symmetry; apply take_drop|].
    f_equal. rewrite <- Hword. unfold length_word, field. rewrite drop_0.
    rewrite <- (split_le_combine (take 8 bs)) at 1.
    f_equal. rewrite length_take. lia.
  - intros q Hq. rewrite Hfiles. now rewrite lookup_insert_ne.
Qed.

(** A 128-byte file whose first 8 bytes say 16, and the 128-byte image of
    [ufsImageCreate], reopened. *)
Definition wrong_length_file : World :=
  file_world "img" (le_split 8 16 ++ replicate 120 Byte.x2a).

Lemma ufsImageOpen_length_word_witness :
  exists p bs bs',
    Some "img"%string = Some p /\
    files wrong_length_file !! p = Some bs /\
    files (world_after (ufsImageOpen (Some "img"%string) sys_ok
                          wrong_length_file)) !! p = Some bs' /\
    maps (world_after (ufsImageOpen (Some "img"%string) sys_ok
                         wrong_length_file)) !! 1%positive
    = Some {| m_path := p; m_len := Z.of_nat (length bs) |} /\
    length bs' = length bs /\ drop 8 bs' = drop 8 bs /\
    (Z.of_nat (length bs) < 2 ^ 64 ->
     length_word bs' = Z.of_nat (length bs)) /\
    (length_word bs = Z.of_nat (length bs) ->
     files (world_after (ufsImageOpen (Some "img"%string) sys_ok
                           wrong_length_file)) = files wrong_length_file) /\
    (forall q, q <> p ->
       files (world_after (ufsImageOpen (Some "img"%string) sys_ok
                             wrong_length_file)) !! q
       = files wrong_length_file !! q).
Proof.
  apply (ufsImageOpen_length_word (Some "img"%string) sys_ok
           wrong_length_file). by_computation.
Defined.

(** ** [ufsHeaderInit] is not repeatable *)

Lemma ufsHeaderInit_exists (p : string) (req : ufsHeaderSizeRequestStruct)
    (s : Sys) (w : World) :
  is_Some (files w !! p) ->
  exists w',
    ufsHeaderInit (Some p) req s w = Ret NULL w' /\
    ufsErrno w' = UFS_BAD_CALL /\ files w' = files w /\ maps w' = maps w.
Proof.
  intros Hex. run.
  destruct ((numFiles req =? 0) || (numAreas req =? 0) ||
            (numNodes req =? 0) || (numStrBytes req =? 0));
    [eexists; repeat split|].
  rewrite (bool_decide_eq_true_2 _ Hex). eexists; repeat split.
Qed.

(** [ufsHeaderInit] never removes the file that [open] created.  After it
    has returned an image, and also after it has returned null because
    [ftruncate] or [mmap] failed, a file exists at the path, so that every
    later [ufsHeaderInit] on that path, with any request and whatever the
    system calls would answer, is rejected with [UFS_BAD_CALL] and changes
    neither files nor mappings. *)
Theorem ufsHeaderInit_not_repeatable (p : string)
    (req : ufsHeaderSizeRequestStruct) (s : Sys) (w : World) :
  (forall a w', ufsHeaderInit (Some p) req s w = Ret (Some a) w' ->
   forall req2 s2, exists w2,
     ufsHeaderInit (Some p) req2 s2 w' = Ret NULL w2 /\
     ufsErrno w2 = UFS_BAD_CALL /\ files w2 = files w' /\ maps w2 = maps w') /\
  (numFiles req <> 0 -> numAreas req <> 0 -> numNodes req <> 0 ->
   numStrBytes req <> 0 -> files w !! p = None ->
   8 <= resolveSize (wrap64 (sc_pagesize w)) req ->
   r_open s = None -> r_ftruncate s = false \/ r_mmap s = false ->
   exists w',
     ufsHeaderInit (Some p) req s w = Ret NULL w' /\
     maps w' = maps w /\ is_Some (files w' !! p) /\
     forall req2 s2, exists w2,
       ufsHeaderInit (Some p) req2 s2 w' = Ret NULL w2 /\
       ufsErrno w2 = UFS_BAD_CALL /\ files w2 = files w' /\
       maps w2 = maps w').
Proof.
  split.
  - intros a w' H req2 s2.
    destruct (ufsHeaderInit_some _ _ _ _ _ _ H) as (q & [= <-] & _ & _ & _ & ->).
    apply ufsHeaderInit_exists.
    unfold init_world, with_bytes, set_files. cbn [files].
    rewrite lookup_insert_eq. eauto.
  - intros H1 H2 H3 H4 Hf Hs Ho Hfail.
    assert (Hc : exists w',
               ufsImageCreate (Some p)
                 (resolveSize (wrap64 (sc_pagesize w)) req) s
                 (log (EvAccess p) w) = Ret NULL w' /\
               maps w' = maps w /\ is_Some (files w' !! p)).
    { destruct (ufsImageCreate_late_eval p
                  (resolveSize (wrap64 (sc_pagesize w)) req) s
                  (log (EvAccess p) w) Hs Ho) as [Lt Lm].
      destruct (r_ftruncate s) eqn:Et.
      - destruct Hfail as [?|Em]; [discriminate|].
        destruct (Lm eq_refl Em) as (w' & E & _ & Hmaps & Hfile & _).
        exists w'. rewrite Hfile. eauto.
      - destruct (Lt eq_refl) as (w' & E & _ & Hmaps & Hfile & _).
        exists w'. rewrite Hfile. eauto. }
    destruct Hc as (w' & Ec & Hmaps & Hex).
    exists w'. split; [|split; [assumption|split; [assumption|]]].
    + unfold ufsHeaderInit, bind, sys_access, sysconf_SC_PAGESIZE.
      rewrite capacities_nonzero by assumption.
      rewrite (access_not_found _ _ Hf).
      cbn [sc_pagesize log]. cbn [log] in Ec. rewrite Ec. reflexivity.
    + intros req2 s2. now apply ufsHeaderInit_exists.
Qed.

(** After the image of [small_request] was made, and after an attempt at
    which [ftruncate] failed. *)
Lemma ufsHeaderInit_not_repeatable_witness :
  (exists w2,
     ufsHeaderInit (Some "/tmp/img"%string) small_request sys_ok fresh_image
     = Ret NULL w2 /\
     ufsErrno w2 = UFS_BAD_CALL /\ files w2 = files fresh_image /\
     maps w2 = maps fresh_image) /\
  (exists w',
     ufsHeaderInit (Some "/tmp/img"%string) small_request sys_fail_ftruncate
       empty_world = Ret NULL w' /\
     maps w' = maps empty_world /\
     is_Some (files w' !! "/tmp/img"%string) /\
     forall req2 s2, exists w2,
       ufsHeaderInit (Some "/tmp/img"%string) req2 s2 w' = Ret NULL w2 /\
       ufsErrno w2 = UFS_BAD_CALL /\ files w2 = files w' /\
       maps w2 = maps w').
Proof.
  split.
  - apply (proj1 (ufsHeaderInit_not_repeatable "/tmp/img" small_request
                    sys_ok empty_world) 1%positive fresh_image).
    by_computation.
  - apply (proj2 (ufsHeaderInit_not_repeatable "/tmp/img" small_request
                    sys_fail_ftruncate empty_world));
      try by_computation.
    now left.
Defined.

(** ** [ufsImageOpen] followed by [ufsHeaderValidate] *)

Lemma field_after_length_word (n k : nat) (bs bs' : list byte) :
  drop 8 bs' = drop 8 bs -> field n (8 + k) bs' = field n (8 + k) bs.
Proof.
  intros H. unfold field.
  now rewrite <- !drop_drop, H.
Qed.

(** [ufsImageOpen] does not look at the header: it returns an image for any
    file that holds a length word.  What [ufsHeaderValidate] then says of
    the image is decided by the magic number and the version the file held
    before it was opened (the length word that [ufsImageOpen] rewrites is
    not part of the header): a wrong magic number gives null with
    [UFS_IMAGE_IS_CORRUPTED], a wrong version null with
    [UFS_VERSION_MISMATCH], and otherwise the image is returned with the
    status [UFS_NO_ERROR] of [ufsImageOpen].  The file need not be as long
    as a header, only as long as the fields that are read. *)
Theorem open_then_validate (p : string) (s : Sys) (w w1 : World) (a : addr)
    (bs : list byte) :
  files w !! p = Some bs -> magicNumber_end <= Z.of_nat (length bs) ->
  ufsImageOpen (Some p) s w = Ret (Some a) w1 ->
  (hdr_magicNumber bs <> UFS_MAGIC_NUMBER ->
   ufsHeaderValidate (Some a) w1
   = Ret NULL (set_ufsErrno UFS_IMAGE_IS_CORRUPTED w1)) /\
  (version_end <= Z.of_nat (length bs) ->
   hdr_magicNumber bs = UFS_MAGIC_NUMBER ->
   hdr_version bs <> UFS_INDEX_VERSION ->
   ufsHeaderValidate (Some a) w1
   = Ret NULL (set_ufsErrno UFS_VERSION_MISMATCH w1)) /\
  (version_end <= Z.of_nat (length bs) ->
   hdr_magicNumber bs = UFS_MAGIC_NUMBER ->
   hdr_version bs = UFS_INDEX_VERSION ->
   ufsHeaderValidate (Some a) w1 = Ret (Some a) w1 /\
   ufsErrno w1 = UFS_NO_ERROR).
Proof.
  intros Hf Hlen H. rewrite magicNumber_end_eq in Hlen.
  destruct (ufsImageOpen_inv _ _ _ _ _ H)
    as (q & bs0 & [= <-] & Hf0 & _ & Ho & Hs & Hm).
  rewrite Hf in Hf0. injection Hf0 as <-.
  destruct (ufsImageOpen_success p s w bs Hf ltac:(lia) Ho Hs Hm)
    as (w2 & Hopen & Herr & Hmaps & Hfiles).
  rewrite Hopen in H. injection H as <- <-.
  remember (le_split 8 (Z.of_nat (length bs)) ++ drop 8 bs) as bs' eqn:Eb.
  assert (Hd : drop 8 bs' = drop 8 bs).
  { subst bs'.
    now rewrite drop_app_length' by (symmetry; apply length_le_split). }
  assert (Hl : length bs' = length bs).
  { subst bs'. rewrite length_app, length_le_split, length_drop. lia. }
  assert (Hh : forall n, n <= Z.of_nat (length bs) ->
                         image_holds n w2 (fresh (dom (maps w))) bs').
  { intros n Hn. exists {| m_path := p; m_len := Z.of_nat (length bs) |}.
    rewrite Hmaps, Hfiles. cbn [m_path m_len].
    rewrite !lookup_insert_eq. repeat split; lia. }
  assert (Em : hdr_magicNumber bs' = hdr_magicNumber bs)
    by apply (field_after_length_word 4 0 _ _ Hd).
  assert (Ev : hdr_version bs' = hdr_version bs)
    by apply (field_after_length_word 4 4 _ _ Hd).
  clear Eb Hd Hl.
  split; [|split].
  - intros Hmg. apply (ufsHeaderValidate_bad_magic _ _ bs').
    + apply Hh. rewrite magicNumber_end_eq. lia.
    + now rewrite Em.
  - intros Hlen' Hmg Hv.
    rewrite (ufsHeaderValidate_fields _ _ _ (Hh _ Hlen')), Em, Ev, Hmg. cbn.
    destruct (Z.eqb_spec (hdr_version bs) UFS_INDEX_VERSION);
      [contradiction|reflexivity].
  - intros Hlen' Hmg Hv.
    rewrite (ufsHeaderValidate_fields _ _ _ (Hh _ Hlen')), Em, Ev, Hmg, Hv.
    split; [reflexivity|assumption].
Qed.

(** A file of 128 bytes that was never initialised as an image is opened,
    and then rejected as corrupted. *)
Lemma open_then_validate_witness :
  ufsHeaderValidate (Some 1%positive)
    (world_after (ufsImageOpen (Some "img"%string) sys_ok wrong_length_file))
  = Ret NULL
      (set_ufsErrno UFS_IMAGE_IS_CORRUPTED
         (world_after (ufsImageOpen (Some "img"%string) sys_ok
                         wrong_length_file))).
Proof.
  apply (proj1 (open_then_validate "img" sys_ok wrong_length_file
                  (world_after (ufsImageOpen (Some "img"%string) sys_ok
                                  wrong_length_file))
                  1%positive (le_split 8 16 ++ replicate 120 Byte.x2a)
                  ltac:(by_computation) ltac:(by_computation)
                  ltac:(by_computation)));
    by_computation.
Defined.
